(** * The kernel slab allocator (software/kernel/slab.c)

    A shallow embedding of [slab_alloc] and [slab_free] as programs of a
    small state-and-divergence monad over a machine made of the allocator
    structure, byte-addressed memory, the interrupt-enable flag, the block
    provider and a trace of the primitive operations performed. *)

From Stdlib Require Import ZArith List Lia Bool Permutation Finite.
Import ListNotations.
Open Scope Z_scope.

(** ** Byte-addressed memory *)

Definition memory := Z -> Z.

Definition upd (m : memory) (a v : Z) : memory :=
  fun x => if x =? a then v else m x.

(** Little-endian store of the [n] low bytes of [v] at [a], [a+1], ...
    Addresses are integers; which of them lie in the address space is said
    by [region_ok] below. *)
Fixpoint store_bytes (n : nat) (a v : Z) (m : memory) : memory :=
  match n with
  | O => m
  | S k => store_bytes k (a + 1) (v / 256) (upd m a (v mod 256))
  end.

(** Little-endian load of [n] bytes starting at [a]. *)
Fixpoint load_bytes (n : nat) (a : Z) (m : memory) : Z :=
  match n with
  | O => 0
  | S k => m a + 256 * load_bytes k (a + 1) m
  end.

(** ** Machine state *)

(** Primitive operations, in the order they are performed. *)
Inductive event : Type :=
| EvDisableInterrupts (prior : bool)
| EvRestoreInterrupts (flags : bool)
| EvAcquire
| EvRelease
| EvKmalloc (size result : Z)
| EvLoad (addr : Z)
| EvStore (addr value : Z).

(** Modelled from the spec: [struct slab_allocator] (slab.h is not among the
    sources).  The fields are the ones slab.c reads and writes; pointers,
    sizes and offsets are unsigned machine words of the width of a pointer,
    the lock is held or free. *)
Record slab_allocator : Type := Build_slab_allocator {
  lock : bool;
  free_list : Z;
  wilderness_slab : Z;
  wilderness_offset : Z;
  slab_size : Z;
  object_size : Z
}.

Record machine : Type := Build_machine {
  sa : slab_allocator;
  mem : memory;
  interrupts_enabled : bool;
  (** the answers the block provider gives to the coming requests, in
      order; 0 is its null indicator and an exhausted provider answers 0 *)
  heap : list Z;
  trace : list event
}.

Definition set_lock (b : bool) (s : slab_allocator) : slab_allocator :=
  Build_slab_allocator b (free_list s) (wilderness_slab s)
    (wilderness_offset s) (slab_size s) (object_size s).

Definition set_free_list (v : Z) (s : slab_allocator) : slab_allocator :=
  Build_slab_allocator (lock s) v (wilderness_slab s)
    (wilderness_offset s) (slab_size s) (object_size s).

Definition set_wilderness_slab (v : Z) (s : slab_allocator) : slab_allocator :=
  Build_slab_allocator (lock s) (free_list s) v
    (wilderness_offset s) (slab_size s) (object_size s).

Definition set_wilderness_offset (v : Z) (s : slab_allocator) : slab_allocator :=
  Build_slab_allocator (lock s) (free_list s) (wilderness_slab s)
    v (slab_size s) (object_size s).

Definition log (e : event) (m : machine) : machine :=
  Build_machine (sa m) (mem m) (interrupts_enabled m) (heap m) (trace m ++ [e]).

Definition with_sa (f : slab_allocator -> slab_allocator) (m : machine) : machine :=
  Build_machine (f (sa m)) (mem m) (interrupts_enabled m) (heap m) (trace m).

Definition with_mem (f : memory -> memory) (m : machine) : machine :=
  Build_machine (sa m) (f (mem m)) (interrupts_enabled m) (heap m) (trace m).

Definition with_interrupts (b : bool) (m : machine) : machine :=
  Build_machine (sa m) (mem m) b (heap m) (trace m).

Definition with_heap (h : list Z) (m : machine) : machine :=
  Build_machine (sa m) (mem m) (interrupts_enabled m) h (trace m).

(** ** The monad of kernel code

    A computation takes the machine and either returns a value and the new
    machine, or never returns ([None]): the only such case is a spin on a
    lock that is already held, in a single execution context. *)

Definition M (A : Type) : Type := machine -> option (A * machine).

Definition ret {A : Type} (a : A) : M A := fun m => Some (a, m).

Definition bind {A B : Type} (c : M A) (k : A -> M B) : M B :=
  fun m => match c m with
           | Some (a, m') => k a m'
           | None => None
           end.

Notation "x <- c ;; k" := (bind c (fun x => k))
  (at level 61, c at next level, right associativity).
Notation "c ;; k" := (bind c (fun _ => k))
  (at level 61, right associativity).

(** [sa->f] read. *)
Definition get {A : Type} (f : slab_allocator -> A) : M A :=
  fun m => Some (f (sa m), m).

(** [sa->f = v], as an update of the structure. *)
Definition put (f : slab_allocator -> slab_allocator) : M unit :=
  fun m => Some (tt, with_sa f m).

Section Slab.

(** [sizeof(void * )] in bytes. *)
Variable ptr_bytes : nat.

Definition ptr_size : Z := Z.of_nat ptr_bytes.

Definition modulus : Z := 256 ^ ptr_size.

(** Machine arithmetic on words wraps around. *)
Definition wrap (z : Z) : Z := z mod modulus.

(** [*((void** ) a)] read. *)
Definition load_ptr (a : Z) : M Z :=
  fun m => Some (load_bytes ptr_bytes a (mem m), log (EvLoad a) m).

(** [*((void** ) a) = v]. *)
Definition store_ptr (a v : Z) : M unit :=
  fun m => Some (tt, log (EvStore a v) (with_mem (store_bytes ptr_bytes a v) m)).

(** Modelled from the spec: [disable_interrupts] and [restore_interrupts]
    (libc.h is not among the sources).  "interrupts_suspend() -> prior_state /
    interrupts_restore(prior_state): suspends/restores asynchronous interrupt
    delivery to the calling execution context only." *)
Definition disable_interrupts : M bool :=
  fun m => Some (interrupts_enabled m,
                 log (EvDisableInterrupts (interrupts_enabled m))
                     (with_interrupts false m)).

Definition restore_interrupts (old_flags : bool) : M unit :=
  fun m => Some (tt, log (EvRestoreInterrupts old_flags)
                         (with_interrupts old_flags m)).

(** Modelled from the spec: [acquire_spinlock] and [release_spinlock] on
    [&sa->lock] (their code is not among the sources).  "lock_acquire(lock) /
    lock_release(lock): mutual exclusion".  In one execution context,
    acquiring a lock that is held spins for ever. *)
Definition acquire_spinlock : M unit :=
  fun m => if lock (sa m) then None
           else Some (tt, log EvAcquire (with_sa (set_lock true) m)).

Definition release_spinlock : M unit :=
  fun m => Some (tt, log EvRelease (with_sa (set_lock false) m)).

(** Modelled from the spec: [kmalloc] (kernel_heap.h is not among the
    sources).  "request_block(size) -> address | failure: obtains a
    contiguous memory region of at least size bytes; returns a
    distinguishable failure indicator on exhaustion".  The provider answers
    with the next entry of [heap]; it does not touch memory. *)
Definition kmalloc (size : Z) : M Z :=
  fun m => Some (hd 0 (heap m),
                 log (EvKmalloc size (hd 0 (heap m))) (with_heap (tl (heap m)) m)).

(** ** slab.c *)

Definition slab_alloc : M Z :=
  old_flags <- disable_interrupts ;;
  acquire_spinlock ;;
  head <- get free_list ;;
  object <-
    (if negb (head =? 0) then
       (* Grab freed object *)
       object <- get free_list ;;
       next <- load_ptr object ;;
       put (set_free_list next) ;;
       ret object
     else
       (* If there is no wilderness, or the slab is full, create a new
          wilderness slab *)
       ws <- get wilderness_slab ;;
       off <- get wilderness_offset ;;
       osz <- get object_size ;;
       ssz <- get slab_size ;;
       (if (ws =? 0) || (ssz <? wrap (off + osz)) then
          b <- kmalloc ssz ;;
          put (set_wilderness_slab b) ;;
          put (set_wilderness_offset 0)
        else ret tt) ;;
       ws <- get wilderness_slab ;;
       off <- get wilderness_offset ;;
       osz <- get object_size ;;
       put (set_wilderness_offset (wrap (off + osz))) ;;
       ret (wrap (ws + off))) ;;
  release_spinlock ;;
  restore_interrupts old_flags ;;
  ret object.

Definition slab_free (object : Z) : M unit :=
  old_flags <- disable_interrupts ;;
  acquire_spinlock ;;
  head <- get free_list ;;
  store_ptr object head ;;
  put (set_free_list object) ;;
  release_spinlock ;;
  restore_interrupts old_flags.

(** ** Closed forms of the three paths of [slab_alloc] and of [slab_free] *)

Definition entry_events (m : machine) : list event :=
  [EvDisableInterrupts (interrupts_enabled m); EvAcquire].

Definition exit_events (m : machine) : list event :=
  [EvRelease; EvRestoreInterrupts (interrupts_enabled m)].

(** The machine after a critical section that left the allocator fields
    [fl], [ws], [off], the memory [mm], the provider [h], and performed the
    primitive operations [body]. *)
Definition after (m : machine) (fl ws off : Z) (mm : memory) (h : list Z)
    (body : list event) : machine :=
  Build_machine
    (Build_slab_allocator false fl ws off (slab_size (sa m)) (object_size (sa m)))
    mm (interrupts_enabled m) h
    (trace m ++ entry_events m ++ body ++ exit_events m).

Definition needs_block (s : slab_allocator) : bool :=
  (wilderness_slab s =? 0)
  || (slab_size s <? wrap (wilderness_offset s + object_size s)).

(** ** The bytes of memory the two operations touch *)

(** Byte [x] belongs to the [n] bytes starting at [a]. *)
Definition in_range (a n x : Z) : Prop := a <= x < a + n.



(** The sizes requested from the block provider, in order. *)
Fixpoint requests (t : list event) : list Z :=
  match t with
  | [] => []
  | EvKmalloc size _ :: t' => size :: requests t'
  | _ :: t' => requests t'
  end.

Definition is_interrupt_event (e : event) : bool :=
  match e with
  | EvDisableInterrupts _ | EvRestoreInterrupts _ => true
  | _ => false
  end.

(** ** Words and sizes *)

Definition word_ok (z : Z) : Prop := 0 <= z < modulus.

(** An allocator constructed for objects of [S] bytes carved from blocks of
    [K] bytes: [K >= S], and both sizes are words that add without wrapping. *)
Definition sizes_ok (s : slab_allocator) : Prop :=
  0 <= object_size s <= slab_size s
  /\ slab_size s + object_size s < modulus.

(** The allocator is at rest (its lock is free), its sizes are as
    constructed and the wilderness offset is within the block. *)
Definition offset_inv (m : machine) : Prop :=
  lock (sa m) = false
  /\ sizes_ok (sa m)
  /\ 0 <= wilderness_offset (sa m) <= slab_size (sa m).

(** Replace the two wilderness fields. *)
Definition set_wilderness (ws off : Z) (s : slab_allocator) : slab_allocator :=
  set_wilderness_offset off (set_wilderness_slab ws s).

(** ** Repeated allocation *)

Fixpoint alloc_n (n : nat) : M (list Z) :=
  match n with
  | O => ret []
  | S k => a <- slab_alloc ;; l <- alloc_n k ;; ret (a :: l)
  end.

(** The addresses at [osz]-byte steps from [b], from step [i], [n] of them. *)
Definition steps (b osz : Z) (i n : nat) : list Z :=
  map (fun j => b + Z.of_nat j * osz) (seq i n).

(** A freshly constructed allocator: no freed object, no wilderness. *)
Definition fresh (osz ssz : Z) : slab_allocator :=
  Build_slab_allocator false 0 0 0 ssz osz.

(** ** Runs of callers

    A caller allocates, frees an object it owns, or writes a byte of an
    object it owns.  [live] lists the objects owned by callers and [carved]
    every slot that was ever carved out of a block. *)

Inductive op : Type :=
| OpAlloc
| OpFree (a : Z)
| OpWrite (a i v : Z).

Record config : Type := Build_config {
  mach : machine;
  live : list Z;
  carved : list Z
}.

Definition mem_bool (a : Z) (l : list Z) : bool := existsb (Z.eqb a) l.

Fixpoint remove_one (a : Z) (l : list Z) : list Z :=
  match l with
  | [] => []
  | x :: t => if x =? a then t else x :: remove_one a t
  end.

Definition exec_op (o : op) (c : config) : option config :=
  match o with
  | OpAlloc =>
      match slab_alloc (mach c) with
      | Some (a, m') =>
          if a =? 0 then Some (Build_config m' (live c) (carved c))
          else Some (Build_config m' (a :: live c)
                       (if free_list (sa (mach c)) =? 0
                        then a :: carved c else carved c))
      | None => None
      end
  | OpFree a =>
      if mem_bool a (live c) then
        match slab_free a (mach c) with
        | Some (_, m') =>
            Some (Build_config m' (remove_one a (live c)) (carved c))
        | None => None
        end
      else None
  | OpWrite a i v =>
      if mem_bool a (live c)
         && (0 <=? i) && (i <? object_size (sa (mach c)))
      then Some (Build_config
                   (with_mem (fun mm => upd mm (a + i) v) (mach c))
                   (live c) (carved c))
      else None
  end.

Fixpoint run (ops : list op) (c : config) : option config :=
  match ops with
  | [] => Some c
  | o :: rest =>
      match exec_op o c with
      | Some c' => run rest c'
      | None => None
      end
  end.

Definition initial (osz ssz : Z) (mm : memory) (ie : bool) (h : list Z) : config :=
  Build_config (Build_machine (fresh osz ssz) mm ie h []) [] [].

(** ** Regions of the address space *)

(** A region is a base address and a number of bytes. *)
Definition region : Type := (Z * Z)%type.

Definition range_disjoint (r1 r2 : region) : Prop :=
  fst r1 + snd r1 <= fst r2 \/ fst r2 + snd r2 <= fst r1.

Fixpoint pairwise_disjoint (l : list region) : Prop :=
  match l with
  | [] => True
  | r :: t => Forall (range_disjoint r) t /\ pairwise_disjoint t
  end.

(** A region of the address space that does not contain the null address. *)
Definition region_ok (r : region) : Prop :=
  0 < fst r /\ 0 <= snd r /\ fst r + snd r <= modulus.

(** Regions inside the address space, away from the null address and
    pairwise disjoint. *)
Definition separate (l : list region) : Prop :=
  pairwise_disjoint l /\ Forall region_ok l.

(** The slot of the object at [a]. *)
Definition slot (osz a : Z) : region := (a, osz).

(** The part of the wilderness block that is not carved yet. *)
Definition uncarved (s : slab_allocator) : list region :=
  if wilderness_slab s =? 0 then []
  else [(wilderness_slab s + wilderness_offset s,
         slab_size s - wilderness_offset s)].

(** The blocks the provider has still to hand out. *)
Definition blocks (ssz : Z) (h : list Z) : list region :=
  map (fun b => (b, ssz)) (filter (fun b => negb (b =? 0)) h).

(** The free list as the sequence of slots linked from [head] through the
    leading word of each. *)
Fixpoint chain (mm : memory) (head : Z) (fl : list Z) : Prop :=
  match fl with
  | [] => head = 0
  | a :: rest =>
      head = a /\ a <> 0 /\ chain mm (load_bytes ptr_bytes a mm) rest
  end.

(** The slots of the live and of the freed objects, the uncarved part of
    the wilderness and the blocks still with the provider. *)
Definition regions (osz ssz : Z) (c : config) (fl : list Z) : list region :=
  map (slot osz) (live c ++ fl)
  ++ uncarved (sa (mach c))
  ++ blocks ssz (heap (mach c)).

(** The block provider never hands out the null address as a block, nor
    overlapping blocks, nor a block that leaves the address space. *)
Definition provider_ok (ssz : Z) (h : list Z) : Prop :=
  separate (blocks ssz h).

(** Objects of [osz] bytes, large enough for the link word, carved from
    blocks of [ssz] bytes. *)
Definition config_ok (osz ssz : Z) : Prop :=
  0 < osz /\ ptr_size <= osz /\ osz <= ssz /\ ssz + osz < modulus.

Record Inv (osz ssz : Z) (c : config) (fl : list Z) : Prop := Build_Inv {
  inv_osz : object_size (sa (mach c)) = osz;
  inv_ssz : slab_size (sa (mach c)) = ssz;
  inv_lock : lock (sa (mach c)) = false;
  inv_chain : chain (mem (mach c)) (free_list (sa (mach c))) fl;
  inv_off : 0 <= wilderness_offset (sa (mach c)) <= ssz;
  inv_regions : separate (regions osz ssz c fl);
  inv_carved : Permutation (carved c) (live c ++ fl)
}.

(** ** Further runs of the two operations *)

(** [slab_free] of each object of [l], first to last. *)
Fixpoint free_all (l : list Z) : M unit :=
  match l with
  | [] => ret tt
  | a :: t => slab_free a ;; free_all t
  end.

Definition is_alloc (o : op) : bool :=
  match o with
  | OpAlloc => true
  | _ => false
  end.

Definition count_allocs (ops : list op) : nat := length (filter is_alloc ops).

(** A caller operation on the object at [a] itself: its free, or a write
    into it. *)
Definition touches (a : Z) (o : op) : bool :=
  match o with
  | OpAlloc => false
  | OpFree a' => a' =? a
  | OpWrite a' _ _ => a' =? a
  end.

(** The object at [a] lies, at a whole number of objects from the base, in a
    block that the provider handed out for a request of [ssz] bytes. *)
Definition in_block (osz ssz : Z) (t : list event) (a : Z) : Prop :=
  exists b i,
    In (EvKmalloc ssz b) t /\ b <> 0 /\ 0 <= i
    /\ a = b + i * osz /\ a + osz <= b + ssz.

(** The wilderness block, when there is one, came from the provider and is
    carved up to a whole number of objects. *)
Definition wilderness_in_block (osz ssz : Z) (m : machine) : Prop :=
  wilderness_slab (sa m) = 0
  \/ (In (EvKmalloc ssz (wilderness_slab (sa m))) (trace m)
      /\ exists j, 0 <= j /\ wilderness_offset (sa m) = j * osz).

(** Every carved slot lies in a block of the provider, and so does the
    wilderness. *)
Definition blocks_inv (osz ssz : Z) (c : config) : Prop :=
  Forall (in_block osz ssz (trace (mach c))) (carved c)
  /\ wilderness_in_block osz ssz (mach c).

(** Every cell of memory holds a byte. *)
Definition bytes_ok (mm : memory) : Prop := forall x, 0 <= mm x < 256.

(** ** Example states

    Objects of 16 bytes carved from blocks of 64 bytes, on a machine with
    4-byte pointers. *)

Definition zero_mem : memory := fun _ => 0.

(** The block at 4096 is carved to its end, no object is free and the
    provider is still to answer with [h]. *)
Definition full_block (h : list Z) : machine :=
  Build_machine (Build_slab_allocator false 0 4096 64 64 16)
    zero_mem true h [].

(** The object at 4112 is the only one on the free list. *)
Definition one_free : machine :=
  Build_machine (Build_slab_allocator false 4112 4096 64 64 16)
    zero_mem true [8192] [].

Definition four_allocs : list op := [OpAlloc; OpAlloc; OpAlloc; OpAlloc].

(** Five allocations, the second object freed, a byte of the first
    written, one more allocation. *)
Definition scenario : list op :=
  [OpAlloc; OpAlloc; OpAlloc; OpAlloc; OpAlloc;
   OpFree 4112; OpWrite 4096 3 255; OpAlloc].

(** Objects of 64 bytes asked of blocks of 16 bytes. *)
Definition oversize : machine :=
  Build_machine (Build_slab_allocator false 0 0 0 16 64)
    zero_mem true [4096; 8192] [].

(** Objects of no bytes, the block at 4096 untouched. *)
Definition empty_objects : machine :=
  Build_machine (Build_slab_allocator false 0 4096 0 64 0)
    zero_mem true [] [].

(** A free, a write and an allocation that leave the object at 4096 alone. *)
Definition other_ops : list op := [OpFree 4112; OpWrite 4128 0 7; OpAlloc].

(** Memory whose every byte is 255. *)
Definition full_mem : memory := fun _ => 255.

(** With objects of 2 bytes: three allocations, the second object freed,
    the third one written by its owner, two more allocations. *)
Definition small_object_ops : list op :=
  [OpAlloc; OpAlloc; OpAlloc; OpFree 65534; OpWrite 65536 0 1;
   OpAlloc; OpAlloc].

(** ** Memory lemmas *)

Lemma store_bytes_outside (n : nat) (a v : Z) (m : memory) (x : Z) :
  ~ in_range a (Z.of_nat n) x -> store_bytes n a v m x = m x.
Proof.
  unfold in_range. revert a v m.
  induction n as [|k IH]; intros a v m Hx; simpl.
  - reflexivity.
  - rewrite IH by lia. unfold upd.
    destruct (x =? a) eqn:E; [apply Z.eqb_eq in E; lia | reflexivity].
Qed.

Lemma load_bytes_ext (n : nat) (a : Z) (m m' : memory) :
  (forall x, in_range a (Z.of_nat n) x -> m' x = m x) ->
  load_bytes n a m' = load_bytes n a m.
Proof.
  unfold in_range. revert a.
  induction n as [|k IH]; intros a H; simpl.
  - reflexivity.
  - rewrite (H a) by lia. rewrite (IH (a + 1)); [reflexivity|].
    intros x Hx. apply H. lia.
Qed.

Lemma load_store_same (n : nat) (a v : Z) (m : memory) :
  load_bytes n a (store_bytes n a v m) = v mod 256 ^ Z.of_nat n.
Proof.
  revert a v m.
  induction n as [|k IH]; intros a v m.
  - simpl. symmetry. apply Z.mod_1_r.
  - cbn [load_bytes store_bytes].
    rewrite store_bytes_outside by (unfold in_range; lia).
    rewrite IH. unfold upd. rewrite Z.eqb_refl.
    rewrite Nat2Z.inj_succ, Z.pow_succ_r by lia.
    rewrite Z.rem_mul_r by lia. reflexivity.
Qed.

Lemma load_store_word (a v : Z) (m : memory) :
  word_ok v -> load_bytes ptr_bytes a (store_bytes ptr_bytes a v m) = v.
Proof.
  intros Hv. rewrite load_store_same. apply Z.mod_small. exact Hv.
Qed.

Lemma modulus_pos : 0 < modulus.
Proof. unfold modulus, ptr_size. apply Z.pow_pos_nonneg; lia. Qed.

Lemma wrap_small (z : Z) : word_ok z -> wrap z = z.
Proof. intros H. apply Z.mod_small. exact H. Qed.

(** ** The paths of the two operations *)

Ltac run_monad :=
  cbv [slab_alloc slab_free bind ret get put disable_interrupts
       restore_interrupts acquire_spinlock release_spinlock kmalloc
       load_ptr store_ptr log with_sa with_mem with_interrupts with_heap
       set_lock set_free_list set_wilderness_slab set_wilderness_offset
       after entry_events exit_events needs_block];
  cbn [sa mem interrupts_enabled heap trace lock free_list wilderness_slab
       wilderness_offset slab_size object_size negb].

Ltac norm_trace := repeat rewrite <- app_assoc; cbn [app].

Lemma slab_free_closed (A : Z) (m : machine) :
  lock (sa m) = false ->
  slab_free A m =
  Some (tt, after m A (wilderness_slab (sa m)) (wilderness_offset (sa m))
              (store_bytes ptr_bytes A (free_list (sa m)) (mem m)) (heap m)
              [EvStore A (free_list (sa m))]).
Proof.
  intros Hl. run_monad. rewrite Hl. run_monad. norm_trace. reflexivity.
Qed.

Lemma slab_alloc_reuse (m : machine) :
  lock (sa m) = false ->
  free_list (sa m) <> 0 ->
  slab_alloc m =
  Some (free_list (sa m),
        after m (load_bytes ptr_bytes (free_list (sa m)) (mem m))
          (wilderness_slab (sa m)) (wilderness_offset (sa m))
          (mem m) (heap m) [EvLoad (free_list (sa m))]).
Proof.
  intros Hl Hf. apply Z.eqb_neq in Hf.
  run_monad. rewrite Hl. run_monad. rewrite Hf. run_monad.
  norm_trace. reflexivity.
Qed.

Lemma slab_alloc_carve (m : machine) :
  lock (sa m) = false ->
  free_list (sa m) = 0 ->
  needs_block (sa m) = false ->
  slab_alloc m =
  Some (wrap (wilderness_slab (sa m) + wilderness_offset (sa m)),
        after m 0 (wilderness_slab (sa m))
          (wrap (wilderness_offset (sa m) + object_size (sa m)))
          (mem m) (heap m) []).
Proof.
  intros Hl Hf Hn. unfold needs_block in Hn.
  run_monad. rewrite Hl. run_monad. rewrite Hf. cbn [Z.eqb negb]. run_monad.
  rewrite Hn. run_monad. norm_trace. reflexivity.
Qed.

Lemma slab_alloc_block (m : machine) :
  lock (sa m) = false ->
  free_list (sa m) = 0 ->
  needs_block (sa m) = true ->
  slab_alloc m =
  Some (wrap (hd 0 (heap m) + 0),
        after m 0 (hd 0 (heap m)) (wrap (0 + object_size (sa m)))
          (mem m) (tl (heap m))
          [EvKmalloc (slab_size (sa m)) (hd 0 (heap m))]).
Proof.
  intros Hl Hf Hn. unfold needs_block in Hn.
  run_monad. rewrite Hl. run_monad. rewrite Hf. cbn [Z.eqb negb]. run_monad.
  rewrite Hn. run_monad. norm_trace. reflexivity.
Qed.

Lemma requests_app (t1 t2 : list event) :
  requests (t1 ++ t2) = requests t1 ++ requests t2.
Proof.
  induction t1 as [|e t1 IH]; simpl.
  - reflexivity.
  - destruct e; simpl; rewrite IH; reflexivity.
Qed.

(** With the lock free, [slab_alloc] returns, along one of three paths. *)
Lemma slab_alloc_paths (m : machine) :
  lock (sa m) = false ->
  (free_list (sa m) <> 0 /\
   slab_alloc m =
   Some (free_list (sa m),
         after m (load_bytes ptr_bytes (free_list (sa m)) (mem m))
           (wilderness_slab (sa m)) (wilderness_offset (sa m))
           (mem m) (heap m) [EvLoad (free_list (sa m))]))
  \/ (free_list (sa m) = 0 /\ needs_block (sa m) = false /\
      slab_alloc m =
      Some (wrap (wilderness_slab (sa m) + wilderness_offset (sa m)),
            after m 0 (wilderness_slab (sa m))
              (wrap (wilderness_offset (sa m) + object_size (sa m)))
              (mem m) (heap m) []))
  \/ (free_list (sa m) = 0 /\ needs_block (sa m) = true /\
      slab_alloc m =
      Some (wrap (hd 0 (heap m) + 0),
            after m 0 (hd 0 (heap m)) (wrap (0 + object_size (sa m)))
              (mem m) (tl (heap m))
              [EvKmalloc (slab_size (sa m)) (hd 0 (heap m))])).
Proof.
  intros Hl.
  destruct (Z.eq_dec (free_list (sa m)) 0) as [Hf|Hf].
  - destruct (needs_block (sa m)) eqn:Hn.
    + right; right. auto using slab_alloc_block.
    + right; left. auto using slab_alloc_carve.
  - left. auto using slab_alloc_reuse.
Qed.

Lemma slab_alloc_lock (m : machine) (r : Z * machine) :
  slab_alloc m = Some r -> lock (sa m) = false.
Proof.
  destruct (lock (sa m)) eqn:E; [|reflexivity].
  run_monad. rewrite E. discriminate.
Qed.

Lemma slab_free_lock (A : Z) (m : machine) (r : unit * machine) :
  slab_free A m = Some r -> lock (sa m) = false.
Proof.
  destruct (lock (sa m)) eqn:E; [|reflexivity].
  run_monad. rewrite E. discriminate.
Qed.

(** ** Properties of single calls *)

(** C7: [slab_free(A)] stores the current head of the free list in the
    leading word of [A], then makes [A] the head; it changes no other byte
    of memory and no other field, returns nothing, and returns for every
    state (in which the caller can take the lock) and every [A]. *)
Theorem C7_slab_free_pushes (A : Z) (m : machine) :
  lock (sa m) = false ->
  word_ok (free_list (sa m)) ->
  exists m',
    slab_free A m = Some (tt, m')
    /\ load_bytes ptr_bytes A (mem m') = free_list (sa m)
    /\ free_list (sa m') = A
    /\ trace m' = trace m ++ entry_events m
                   ++ [EvStore A (free_list (sa m))] ++ exit_events m
    /\ (forall x, ~ in_range A ptr_size x -> mem m' x = mem m x)
    /\ wilderness_slab (sa m') = wilderness_slab (sa m)
    /\ wilderness_offset (sa m') = wilderness_offset (sa m)
    /\ slab_size (sa m') = slab_size (sa m)
    /\ object_size (sa m') = object_size (sa m)
    /\ lock (sa m') = lock (sa m)
    /\ interrupts_enabled m' = interrupts_enabled m
    /\ heap m' = heap m.
Proof.
  intros Hl Hw. eexists. split; [apply slab_free_closed; exact Hl|].
  unfold after; cbn [sa mem interrupts_enabled heap trace lock free_list
    wilderness_slab wilderness_offset slab_size object_size].
  rewrite load_store_word by exact Hw.
  repeat split; auto.
  intros x Hx. apply store_bytes_outside. exact Hx.
Qed.

(** C8: both operations capture the interrupt-enable state before
    suspending interrupts, do their work between the acquisition and the
    release of the lock, and restore the captured state last, on the reuse
    path, the expansion path and the provider-failure path alike; the
    interrupt-enable state after the call is the one before it. *)
Theorem C8_interrupts_restored (m : machine) :
  lock (sa m) = false ->
  (exists a m' body,
      slab_alloc m = Some (a, m')
      /\ trace m' = trace m
                    ++ [EvDisableInterrupts (interrupts_enabled m); EvAcquire]
                    ++ body
                    ++ [EvRelease; EvRestoreInterrupts (interrupts_enabled m)]
      /\ existsb is_interrupt_event body = false
      /\ interrupts_enabled m' = interrupts_enabled m)
  /\ (forall A, exists m' body,
        slab_free A m = Some (tt, m')
        /\ trace m' = trace m
                      ++ [EvDisableInterrupts (interrupts_enabled m); EvAcquire]
                      ++ body
                      ++ [EvRelease; EvRestoreInterrupts (interrupts_enabled m)]
        /\ existsb is_interrupt_event body = false
        /\ interrupts_enabled m' = interrupts_enabled m).
Proof.
  intros Hl. split.
  - destruct (slab_alloc_paths m Hl) as [[_ E]|[(_ & _ & E)|(_ & _ & E)]];
      rewrite E; do 3 eexists; (split; [reflexivity|]);
      unfold after, entry_events, exit_events; cbn [trace interrupts_enabled];
      (split; [reflexivity|]); split; reflexivity.
  - intros A. rewrite (slab_free_closed A m Hl). do 2 eexists.
    split; [reflexivity|].
    unfold after, entry_events, exit_events; cbn [trace interrupts_enabled].
    split; [reflexivity|]. split; reflexivity.
Qed.

(** C3: after [slab_free(A)] the next [slab_alloc] returns [A], puts the
    free list back to what it was before the free and asks nothing of the
    block provider; and whenever the free list is not empty [slab_alloc]
    returns its head, takes the head's leading word as the new head and
    asks nothing of the block provider. *)
Theorem C3_free_then_alloc (A : Z) (m : machine) :
  lock (sa m) = false ->
  word_ok (free_list (sa m)) ->
  A <> 0 ->
  (exists m1 m2,
      slab_free A m = Some (tt, m1)
      /\ slab_alloc m1 = Some (A, m2)
      /\ free_list (sa m2) = free_list (sa m)
      /\ requests (trace m2) = requests (trace m)
      /\ heap m2 = heap m)
  /\ (free_list (sa m) <> 0 ->
      exists m',
        slab_alloc m = Some (free_list (sa m), m')
        /\ free_list (sa m') = load_bytes ptr_bytes (free_list (sa m)) (mem m)
        /\ requests (trace m') = requests (trace m)
        /\ heap m' = heap m).
Proof.
  intros Hl Hw HA. split.
  - eexists. eexists. split; [apply slab_free_closed; exact Hl|].
    rewrite slab_alloc_reuse by (unfold after; cbn [sa lock free_list]; auto).
    unfold after; cbn [sa mem interrupts_enabled heap trace lock free_list
      wilderness_slab wilderness_offset slab_size object_size].
    rewrite load_store_word by exact Hw.
    split; [reflexivity|]. cbn [sa free_list trace heap].
    split; [reflexivity|]. split; [|reflexivity].
    rewrite !requests_app. cbn. rewrite ?app_nil_r. reflexivity.
  - intros Hf. eexists. split; [apply slab_alloc_reuse; assumption|].
    unfold after; cbn [sa heap trace free_list].
    split; [reflexivity|]. split; [|reflexivity].
    rewrite !requests_app. cbn. rewrite ?app_nil_r. reflexivity.
Qed.

(** C1 (as amended): when the free list is empty, a new block is needed and
    the block provider answers with its null indicator, [slab_alloc] returns
    null and leaves the free list, the two sizes and memory as they were;
    the wilderness fields are not kept: [wilderness_slab] becomes null and
    [wilderness_offset] becomes [object_size]. *)
Theorem C1_provider_failure (m : machine) :
  lock (sa m) = false ->
  free_list (sa m) = 0 ->
  needs_block (sa m) = true ->
  hd 0 (heap m) = 0 ->
  word_ok (object_size (sa m)) ->
  exists m',
    slab_alloc m = Some (0, m')
    /\ free_list (sa m') = free_list (sa m)
    /\ slab_size (sa m') = slab_size (sa m)
    /\ object_size (sa m') = object_size (sa m)
    /\ mem m' = mem m
    /\ requests (trace m') = requests (trace m) ++ [slab_size (sa m)]
    /\ wilderness_slab (sa m') = 0
    /\ wilderness_offset (sa m') = object_size (sa m).
Proof.
  intros Hl Hf Hn Hh Hw.
  rewrite (slab_alloc_block m Hl Hf Hn), Hh. cbn [Z.add].
  unfold wrap at 1. rewrite Z.mod_0_l by (pose proof modulus_pos; lia).
  eexists. split; [reflexivity|].
  unfold after; cbn [sa mem interrupts_enabled heap trace lock free_list
    wilderness_slab wilderness_offset slab_size object_size].
  rewrite wrap_small by exact Hw.
  repeat split; auto.
  rewrite !requests_app. cbn. rewrite ?app_nil_r. reflexivity.
Qed.

(** C6: when the free list is empty and there is no wilderness block, or
    the wilderness block cannot hold one more object, [slab_alloc] asks the
    block provider once, for [slab_size] bytes; the answer becomes the
    wilderness block, the offset restarts from 0 (so that it is
    [object_size] after the call) and the address returned is the base of
    the new block. *)
Theorem C6_new_block (m : machine) :
  lock (sa m) = false ->
  free_list (sa m) = 0 ->
  word_ok (hd 0 (heap m)) ->
  word_ok (object_size (sa m)) ->
  word_ok (wilderness_offset (sa m) + object_size (sa m)) ->
  wilderness_slab (sa m) = 0
  \/ wilderness_offset (sa m) + object_size (sa m) > slab_size (sa m) ->
  exists m',
    slab_alloc m = Some (hd 0 (heap m) + 0, m')
    /\ trace m' = trace m ++ entry_events m
                   ++ [EvKmalloc (slab_size (sa m)) (hd 0 (heap m))]
                   ++ exit_events m
    /\ requests (trace m') = requests (trace m) ++ [slab_size (sa m)]
    /\ heap m' = tl (heap m)
    /\ wilderness_slab (sa m') = hd 0 (heap m)
    /\ wilderness_offset (sa m') = 0 + object_size (sa m).
Proof.
  intros Hl Hf Hb Hs Ho Hc.
  assert (Hn : needs_block (sa m) = true).
  { unfold needs_block. rewrite (wrap_small _ Ho).
    apply orb_true_iff. destruct Hc as [Hc|Hc].
    - left. apply Z.eqb_eq. exact Hc.
    - right. apply Z.ltb_lt. lia. }
  rewrite (slab_alloc_block m Hl Hf Hn).
  rewrite !wrap_small by (rewrite ?Z.add_0_r, ?Z.add_0_l; assumption).
  eexists. split; [reflexivity|].
  unfold after; cbn [sa heap trace wilderness_slab wilderness_offset].
  repeat split; auto.
  rewrite !requests_app. cbn. rewrite ?app_nil_r. reflexivity.
Qed.



(** C9 (as amended): [slab_free] carries the wilderness fields through
    without reading them, [slab_alloc] on the reuse path leaves them as they
    are, neither operation changes [object_size] or [slab_size],
    [slab_alloc] writes no byte of memory, and [slab_free(A)] writes no byte
    outside the pointer-sized word at [A]: when objects are at least as
    large as a pointer it writes no byte outside the slot of [A], hence none
    of a live object. *)
Theorem C9_frame (A : Z) (m : machine) :
  lock (sa m) = false ->
  (exists m',
      slab_free A m = Some (tt, m')
      /\ wilderness_slab (sa m') = wilderness_slab (sa m)
      /\ wilderness_offset (sa m') = wilderness_offset (sa m)
      /\ object_size (sa m') = object_size (sa m)
      /\ slab_size (sa m') = slab_size (sa m)
      /\ (forall x, ~ in_range A ptr_size x -> mem m' x = mem m x)
      /\ (ptr_size <= object_size (sa m) ->
          forall x, ~ in_range A (object_size (sa m)) x ->
                    mem m' x = mem m x)
      /\ (forall ws off,
            slab_free A (with_sa (set_wilderness ws off) m)
            = Some (tt, with_sa (set_wilderness ws off) m')))
  /\ (exists a m',
        slab_alloc m = Some (a, m')
        /\ object_size (sa m') = object_size (sa m)
        /\ slab_size (sa m') = slab_size (sa m)
        /\ (forall x, mem m' x = mem m x)
        /\ (free_list (sa m) <> 0 ->
            wilderness_slab (sa m') = wilderness_slab (sa m)
            /\ wilderness_offset (sa m') = wilderness_offset (sa m))).
Proof.
  intros Hl. split.
  - eexists. split; [apply slab_free_closed; exact Hl|].
    unfold after; cbn [sa mem wilderness_slab wilderness_offset slab_size
      object_size].
    repeat split; auto.
    + intros x Hx. apply store_bytes_outside. exact Hx.
    + intros Hs x Hx. apply store_bytes_outside.
      unfold in_range in *. fold ptr_size. lia.
    + intros ws off. rewrite slab_free_closed by exact Hl. reflexivity.
  - destruct (slab_alloc_paths m Hl) as [[Hf E]|[(Hf & _ & E)|(Hf & _ & E)]];
      rewrite E; do 2 eexists; (split; [reflexivity|]);
      unfold after; cbn [sa mem wilderness_slab wilderness_offset slab_size
        object_size]; repeat split; auto; contradiction.
Qed.


(** ** The wilderness offset *)

Lemma slab_alloc_offset (m : machine) :
  offset_inv m ->
  exists a m',
    slab_alloc m = Some (a, m')
    /\ offset_inv m'
    /\ slab_size (sa m') = slab_size (sa m)
    /\ object_size (sa m') = object_size (sa m)
    /\ (free_list (sa m) <> 0 ->
        wilderness_offset (sa m') = wilderness_offset (sa m))
    /\ (free_list (sa m) = 0 -> needs_block (sa m) = false ->
        wilderness_offset (sa m')
        = wilderness_offset (sa m) + object_size (sa m))
    /\ (free_list (sa m) = 0 -> needs_block (sa m) = true ->
        wilderness_offset (sa m') = 0 + object_size (sa m)).
Proof.
  intros (Hl & Hs & Ho). pose proof Hs as ((Hs1 & Hs2) & Hs3).
  assert (W1 : wrap (wilderness_offset (sa m) + object_size (sa m))
               = wilderness_offset (sa m) + object_size (sa m))
    by (apply wrap_small; unfold word_ok; lia).
  assert (W2 : wrap (0 + object_size (sa m)) = 0 + object_size (sa m))
    by (apply wrap_small; unfold word_ok; lia).
  destruct (slab_alloc_paths m Hl) as [[Hf E]|[(Hf & Hn & E)|(Hf & Hn & E)]];
    rewrite E; do 2 eexists; (split; [reflexivity|]);
    unfold offset_inv, sizes_ok, after;
    cbn [sa lock wilderness_offset slab_size object_size];
    rewrite ?W1, ?W2.
  - repeat split; auto; try lia; contradiction.
  - assert (wilderness_offset (sa m) + object_size (sa m) <= slab_size (sa m)).
    { unfold needs_block in Hn. rewrite W1 in Hn.
      apply orb_false_iff in Hn. destruct Hn as [_ Hn].
      apply Z.ltb_ge in Hn. exact Hn. }
    repeat split; auto; try lia; congruence.
  - repeat split; auto; try lia; congruence.
Qed.

Lemma slab_free_offset (A : Z) (m : machine) :
  offset_inv m ->
  exists m',
    slab_free A m = Some (tt, m')
    /\ offset_inv m'
    /\ wilderness_offset (sa m') = wilderness_offset (sa m).
Proof.
  intros (Hl & Hs & Ho). rewrite (slab_free_closed A m Hl).
  eexists. split; [reflexivity|].
  unfold offset_inv, sizes_ok, after in *;
    cbn [sa lock wilderness_offset slab_size object_size].
  repeat split; auto; lia.
Qed.

Lemma exec_op_offset_inv (o : op) (c c' : config) :
  offset_inv (mach c) -> exec_op o c = Some c' -> offset_inv (mach c').
Proof.
  intros H E. destruct o as [|a|a i v]; cbn [exec_op] in E.
  - destruct (slab_alloc_offset _ H) as (a & m' & Ea & H' & _).
    rewrite Ea in E. destruct (a =? 0); inversion E; exact H'.
  - destruct (mem_bool a (live c)); [|discriminate].
    destruct (slab_free_offset a _ H) as (m' & Ea & H' & _).
    rewrite Ea in E. inversion E; exact H'.
  - destruct (mem_bool a (live c) && (0 <=? i)
              && (i <? object_size (sa (mach c)))); [|discriminate].
    inversion E. exact H.
Qed.

Lemma run_offset_inv (ops : list op) (c c' : config) :
  offset_inv (mach c) -> run ops c = Some c' -> offset_inv (mach c').
Proof.
  revert c. induction ops as [|o ops IH]; intros c H E; cbn [run] in E.
  - inversion E; subst; exact H.
  - destruct (exec_op o c) as [c1|] eqn:E1; [|discriminate].
    eapply IH; [|exact E]. eapply exec_op_offset_inv; eassumption.
Qed.

(** C5 (as amended): in every state reached from a freshly constructed
    allocator with [slab_size >= object_size], [0 <= wilderness_offset <=
    slab_size]; [slab_free] and [slab_alloc] keep it so; [slab_free] and the
    reuse path leave the offset as it is, an expansion within the current
    block adds exactly [object_size] to it, and an expansion into a new
    block restarts it from 0, leaving it at [object_size]. *)
Theorem C5_wilderness_offset (osz ssz : Z) (mm : memory) (ie : bool)
    (h : list Z) (ops : list op) (c : config) :
  0 <= osz <= ssz ->
  ssz + osz < modulus ->
  run ops (initial osz ssz mm ie h) = Some c ->
  0 <= wilderness_offset (sa (mach c)) <= slab_size (sa (mach c))
  /\ (forall A, exists m',
        slab_free A (mach c) = Some (tt, m')
        /\ wilderness_offset (sa m') = wilderness_offset (sa (mach c)))
  /\ (exists a m',
        slab_alloc (mach c) = Some (a, m')
        /\ 0 <= wilderness_offset (sa m') <= slab_size (sa m')
        /\ (free_list (sa (mach c)) <> 0 ->
            wilderness_offset (sa m') = wilderness_offset (sa (mach c)))
        /\ (free_list (sa (mach c)) = 0 ->
            needs_block (sa (mach c)) = false ->
            wilderness_offset (sa m')
            = wilderness_offset (sa (mach c)) + object_size (sa (mach c)))
        /\ (free_list (sa (mach c)) = 0 ->
            needs_block (sa (mach c)) = true ->
            wilderness_offset (sa m') = 0 + object_size (sa (mach c)))).
Proof.
  intros Hs Hm E.
  assert (H : offset_inv (mach c)).
  { eapply run_offset_inv; [|exact E].
    unfold offset_inv, sizes_ok, initial, fresh;
      cbn [mach sa lock wilderness_offset slab_size object_size]. lia. }
  split; [apply H|]. split.
  - intros A. destruct (slab_free_offset A _ H) as (m' & E1 & _ & E2).
    eauto.
  - destruct (slab_alloc_offset _ H)
      as (a & m' & E1 & (_ & _ & H') & _ & _ & R1 & R2 & R3).
    exists a, m'. auto.
Qed.

(** ** Filling one block *)

Lemma steps_disjoint (b osz : Z) (n i : nat) :
  0 <= osz ->
  pairwise_disjoint (map (fun a => (a, osz)) (steps b osz i n)).
Proof.
  intros Hs. unfold steps. revert i.
  induction n as [|n IH]; intros i; cbn [seq map pairwise_disjoint].
  - exact I.
  - split; [|apply IH].
    apply Forall_forall. intros r Hr.
    apply in_map_iff in Hr. destruct Hr as (a & <- & Ha).
    apply in_map_iff in Ha. destruct Ha as (j & <- & Hj).
    apply in_seq in Hj. left. cbn [fst snd]. nia.
Qed.

Lemma alloc_n_carve (b : Z) (n : nat) :
  forall (m : machine) (i : nat),
    lock (sa m) = false ->
    free_list (sa m) = 0 ->
    wilderness_slab (sa m) = b ->
    0 < b ->
    0 < object_size (sa m) ->
    b + slab_size (sa m) <= modulus ->
    wilderness_offset (sa m) = Z.of_nat i * object_size (sa m) ->
    (Z.of_nat i + Z.of_nat n) * object_size (sa m) <= slab_size (sa m) ->
    exists m',
      alloc_n n m = Some (steps b (object_size (sa m)) i n, m')
      /\ requests (trace m') = requests (trace m)
      /\ heap m' = heap m.
Proof.
  induction n as [|n IH]; intros m i Hl Hf Hw Hb Hs Hk Ho Hn.
  - exists m. cbn. auto.
  - cbn [alloc_n]. unfold bind at 1.
    assert (Hoff : 0 <= wilderness_offset (sa m)) by nia.
    assert (Hfit : wilderness_offset (sa m) + object_size (sa m)
                   <= slab_size (sa m)) by nia.
    assert (Hnb : needs_block (sa m) = false).
    { unfold needs_block. rewrite wrap_small by (unfold word_ok; lia).
      apply orb_false_iff. split; [apply Z.eqb_neq; lia|apply Z.ltb_ge; lia]. }
    rewrite (slab_alloc_carve m Hl Hf Hnb).
    rewrite !wrap_small by (unfold word_ok; lia).
    set (m1 := after m 0 (wilderness_slab (sa m))
                 (wilderness_offset (sa m) + object_size (sa m))
                 (mem m) (heap m) []).
    destruct (IH m1 (S i)) as (m' & E & Er & Eh);
      try reflexivity; cbn [m1 after sa lock free_list wilderness_slab
        wilderness_offset slab_size object_size]; try assumption; try nia.
    exists m'. unfold bind. rewrite E. unfold ret.
    cbn [m1 after sa object_size trace heap] in *.
    split; [|split].
    + unfold steps. cbn [seq map]. rewrite Hw, Ho. reflexivity.
    + rewrite Er. rewrite !requests_app. cbn. rewrite ?app_nil_r. reflexivity.
    + exact Eh.
Qed.

(** C4: a fresh allocator for objects of [osz] bytes and blocks of
    [k * osz] bytes, [k >= 1], whose provider hands out the block at [b],
    answers [k] consecutive [slab_alloc] calls with [b], [b + osz], ...,
    [b + (k-1) * osz], which are pairwise disjoint objects, and makes one
    request to the provider, for [k * osz] bytes. *)
Theorem C4_fill_first_block (osz : Z) (k : nat) (b : Z) (mm : memory)
    (ie : bool) (h : list Z) :
  0 < osz ->
  (1 <= k)%nat ->
  0 < b ->
  b + Z.of_nat k * osz <= modulus ->
  exists m',
    alloc_n k (mach (initial osz (Z.of_nat k * osz) mm ie (b :: h)))
    = Some (steps b osz 0 k, m')
    /\ requests (trace m') = [Z.of_nat k * osz]
    /\ heap m' = h
    /\ pairwise_disjoint (map (fun a => (a, osz)) (steps b osz 0 k))
    /\ NoDup (steps b osz 0 k).
Proof.
  intros Hs Hk Hb Hm.
  destruct k as [|k]; [lia|].
  set (ssz := Z.of_nat (S k) * osz) in *.
  assert (Hle : osz <= ssz) by (unfold ssz; nia).
  set (m := mach (initial osz ssz mm ie (b :: h))).
  assert (Hl : lock (sa m) = false) by reflexivity.
  assert (Hf : free_list (sa m) = 0) by reflexivity.
  assert (Hn : needs_block (sa m) = true) by reflexivity.
  cbn [alloc_n]. unfold bind at 1.
  rewrite (slab_alloc_block m Hl Hf Hn).
  change (heap m) with (b :: h). change (mem m) with mm.
  change (object_size (sa m)) with osz. change (slab_size (sa m)) with ssz.
  cbn [hd tl].
  rewrite (wrap_small (b + 0)) by (unfold word_ok; lia).
  rewrite (wrap_small (0 + osz)) by (unfold word_ok; lia).
  set (m1 := after m 0 b (0 + osz) mm h [EvKmalloc ssz b]).
  destruct (alloc_n_carve b k m1 1) as (m' & E & Er & Eh);
    try reflexivity;
    try (change (object_size (sa m1)) with osz;
         change (slab_size (sa m1)) with ssz;
         change (wilderness_offset (sa m1)) with (0 + osz);
         unfold ssz; lia).
  exists m'. unfold bind. rewrite E. unfold ret.
  change (object_size (sa m1)) with osz.
  split; [|split; [|split; [|split]]].
  - unfold steps. cbn [seq map]. change (Z.of_nat 0) with 0.
    rewrite Z.mul_0_l, !Z.add_0_r. reflexivity.
  - rewrite Er. reflexivity.
  - exact Eh.
  - apply steps_disjoint. lia.
  - unfold steps. apply Finite.Injective_map_NoDup; [|apply seq_NoDup].
    intros x y Hxy. nia.
Qed.

(** ** Disjoint regions *)

Lemma range_disjoint_sym (r1 r2 : region) :
  range_disjoint r1 r2 -> range_disjoint r2 r1.
Proof. unfold range_disjoint. tauto. Qed.

Lemma pairwise_disjoint_app (l1 l2 : list region) :
  pairwise_disjoint (l1 ++ l2) <->
  pairwise_disjoint l1 /\ pairwise_disjoint l2
  /\ Forall (fun r1 => Forall (range_disjoint r1) l2) l1.
Proof.
  induction l1 as [|r l1 IH]; cbn [app pairwise_disjoint].
  - intuition.
  - rewrite IH, Forall_app. split.
    + intros ((H1 & H2) & H3 & H4 & H5). repeat split; auto.
    + intros ((H1 & H2) & H3 & H4). inversion H4; subst. repeat split; auto.
Qed.

Lemma pairwise_disjoint_perm (l l' : list region) :
  Permutation l l' -> pairwise_disjoint l -> pairwise_disjoint l'.
Proof.
  induction 1 as [|r l l' P IH|r1 r2 l|l l' l'' P1 IH1 P2 IH2];
    cbn [pairwise_disjoint]; auto.
  - intros (H1 & H2). split; [|auto].
    eapply Permutation_Forall; eassumption.
  - intros (H1 & H2 & H3). inversion H1; subst.
    repeat split; auto. constructor; auto using range_disjoint_sym.
Qed.

Lemma pairwise_disjoint_drop (l1 l2 l3 : list region) :
  pairwise_disjoint (l1 ++ l2 ++ l3) -> pairwise_disjoint (l1 ++ l3).
Proof.
  rewrite !pairwise_disjoint_app. intros (H1 & (_ & H3 & _) & H4).
  repeat split; auto.
  eapply Forall_impl; [|exact H4]. cbn beta. intros r Hr.
  apply Forall_app in Hr. tauto.
Qed.

(** Cutting the first [k] bytes off the first region. *)
Lemma pairwise_disjoint_cut (t n k : Z) (l : list region) :
  0 <= k <= n ->
  pairwise_disjoint ((t, n) :: l) ->
  pairwise_disjoint ((t, k) :: (t + k, n - k) :: l).
Proof.
  intros Hk (H1 & H2). cbn [pairwise_disjoint]. repeat split; auto.
  - constructor.
    + left. cbn [fst snd]. lia.
    + eapply Forall_impl; [|exact H1]. unfold range_disjoint. cbn [fst snd].
      intros r Hr. lia.
  - eapply Forall_impl; [|exact H1]. unfold range_disjoint. cbn [fst snd].
    intros r Hr. lia.
Qed.

Lemma region_ok_cut (t n k : Z) :
  0 <= k <= n -> region_ok (t, n) ->
  region_ok (t, k) /\ region_ok (t + k, n - k).
Proof. unfold region_ok. cbn [fst snd]. intros Hk Hr. lia. Qed.

(** ** Ownership lists *)

Lemma mem_bool_In (a : Z) (l : list Z) : mem_bool a l = true <-> In a l.
Proof.
  unfold mem_bool. rewrite existsb_exists. split.
  - intros (x & Hx & E). apply Z.eqb_eq in E. subst. exact Hx.
  - intros H. exists a. split; [exact H|apply Z.eqb_refl].
Qed.

Lemma remove_one_perm (a : Z) (l : list Z) :
  In a l -> Permutation l (a :: remove_one a l).
Proof.
  induction l as [|x l IH]; cbn [In remove_one]; [tauto|].
  intros H. destruct (x =? a) eqn:E.
  - apply Z.eqb_eq in E. subst. reflexivity.
  - apply Z.eqb_neq in E. destruct H as [H|H]; [contradiction|].
    rewrite perm_swap. constructor. apply IH. exact H.
Qed.

(** ** The free list in memory *)

Lemma chain_frame (mm mm' : memory) (fl : list Z) (head : Z) :
  (forall a x, In a fl -> in_range a ptr_size x -> mm' x = mm x) ->
  chain mm head fl -> chain mm' head fl.
Proof.
  revert head. induction fl as [|a fl IH]; intros head Hf; cbn [chain]; auto.
  intros (H1 & H2 & H3). repeat split; auto.
  rewrite (load_bytes_ext ptr_bytes a mm mm').
  - apply IH; [|exact H3]. intros a' x Ha'. apply Hf. right. exact Ha'.
  - intros x Hx. apply (Hf a x); [left; reflexivity|exact Hx].
Qed.

Lemma chain_nil (mm : memory) (fl : list Z) : chain mm 0 fl -> fl = [].
Proof. destruct fl as [|a fl]; cbn [chain]; [reflexivity|]. intuition lia. Qed.

Lemma chain_cons (mm : memory) (head : Z) (fl : list Z) :
  head <> 0 -> chain mm head fl ->
  exists rest, fl = head :: rest
               /\ chain mm (load_bytes ptr_bytes head mm) rest.
Proof.
  destruct fl as [|a fl]; cbn [chain]; [contradiction|].
  intros _ (-> & _ & H). eauto.
Qed.

Lemma separate_perm (l l' : list region) :
  Permutation l l' -> separate l -> separate l'.
Proof.
  intros P (H1 & H2). split.
  - eapply pairwise_disjoint_perm; eassumption.
  - eapply Permutation_Forall; eassumption.
Qed.

Lemma separate_drop (l1 l2 l3 : list region) :
  separate (l1 ++ l2 ++ l3) -> separate (l1 ++ l3).
Proof.
  intros (H1 & H2). split.
  - eapply pairwise_disjoint_drop; eassumption.
  - rewrite !Forall_app in *. tauto.
Qed.

(** Carving [k] bytes off the front of one region makes a slot of them that
    is separate from all the rest. *)
Lemma separate_cut (t n k : Z) (l1 l2 : list region) :
  0 <= k <= n ->
  separate (l1 ++ (t, n) :: l2) ->
  separate ((t, k) :: l1 ++ (t + k, n - k) :: l2).
Proof.
  intros Hk H.
  apply (separate_perm ((t, k) :: (t + k, n - k) :: l1 ++ l2)).
  - constructor. apply Permutation_middle.
  - apply (separate_perm _ ((t, n) :: l1 ++ l2)) in H;
      [|symmetry; apply Permutation_middle].
    destruct H as (H1 & H2).
    pose proof (Forall_inv H2) as H3. pose proof (Forall_inv_tail H2) as H4.
    destruct (region_ok_cut t n k Hk H3) as (R1 & R2).
    split; [apply pairwise_disjoint_cut; assumption|].
    constructor; [exact R1|]. constructor; [exact R2|exact H4].
Qed.

Lemma separate_cross (osz : Z) (l1 l2 : list Z) (rest : list region) (a a' : Z) :
  separate (map (slot osz) (l1 ++ l2) ++ rest) ->
  In a l1 -> In a' l2 -> range_disjoint (slot osz a) (slot osz a').
Proof.
  intros (H & _) Ha Ha'. rewrite map_app, <- app_assoc in H.
  apply pairwise_disjoint_app in H. destruct H as (_ & _ & H).
  rewrite Forall_forall in H.
  specialize (H (slot osz a) (in_map _ _ _ Ha)).
  rewrite Forall_forall in H. apply H.
  apply in_or_app. left. apply in_map. exact Ha'.
Qed.

Lemma separate_slot_ok (osz : Z) (l : list Z) (rest : list region) (a : Z) :
  separate (map (slot osz) l ++ rest) -> In a l -> region_ok (slot osz a).
Proof.
  intros (_ & H) Ha. rewrite Forall_forall in H. apply H.
  apply in_or_app. left. apply in_map. exact Ha.
Qed.

Lemma blocks_null (ssz : Z) (h : list Z) :
  hd 0 h = 0 -> blocks ssz (tl h) = blocks ssz h.
Proof.
  destruct h as [|b h]; cbn [hd tl]; [reflexivity|].
  intros ->. reflexivity.
Qed.

Lemma blocks_cons (ssz : Z) (h : list Z) :
  hd 0 h <> 0 -> blocks ssz h = (hd 0 h, ssz) :: blocks ssz (tl h).
Proof.
  destruct h as [|b h]; cbn [hd tl]; [contradiction|].
  intros Hb. apply Z.eqb_neq in Hb. unfold blocks. cbn [filter].
  rewrite Hb. reflexivity.
Qed.

(** ** The invariant of the allocator *)

Section Invariant.

Variables osz ssz : Z.
Hypothesis sizes : config_ok osz ssz.

Ltac explode c :=
  destruct c as [[[lk head ws off ssz' osz'] mm ie h tr] lv cv];
  cbn [mach live carved sa mem interrupts_enabled heap trace lock free_list
       wilderness_slab wilderness_offset slab_size object_size after] in *.

Lemma chain_head_word (mm : memory) (head : Z) (l fl : list Z)
    (rest : list region) :
  chain mm head fl ->
  separate (map (slot osz) (l ++ fl) ++ rest) ->
  word_ok head.
Proof.
  destruct sizes as (C1 & C2 & C3 & C4).
  destruct fl as [|a fl]; cbn [chain].
  - intros -> _. unfold word_ok. pose proof modulus_pos. lia.
  - intros (-> & _ & _) H.
    assert (R : region_ok (slot osz a)).
    { eapply separate_slot_ok; [exact H|].
      apply in_or_app. right. left. reflexivity. }
    unfold region_ok, slot, word_ok in *. cbn [fst snd] in R. lia.
Qed.

Lemma inv_free (c : config) (fl : list Z) (a : Z) :
  Inv osz ssz c fl ->
  In a (live c) ->
  Inv osz ssz
    (Build_config
       (after (mach c) a (wilderness_slab (sa (mach c)))
          (wilderness_offset (sa (mach c)))
          (store_bytes ptr_bytes a (free_list (sa (mach c))) (mem (mach c)))
          (heap (mach c)) [EvStore a (free_list (sa (mach c)))])
       (remove_one a (live c)) (carved c))
    (a :: fl).
Proof.
  intros [Ho Hs Hl Hc Hoff Hr Hp] Ha.
  destruct sizes as (C1 & C2 & C3 & C4).
  unfold regions in *. explode c. subst osz' ssz' lk.
  assert (Pm : Permutation (lv ++ fl) (remove_one a lv ++ a :: fl)).
  { rewrite <- Permutation_middle.
    rewrite (remove_one_perm a lv Ha) at 1. reflexivity. }
  assert (Ra : region_ok (slot osz a)).
  { eapply separate_slot_ok; [exact Hr|]. apply in_or_app. left. exact Ha. }
  constructor;
    cbn [mach live carved sa mem heap lock free_list wilderness_slab
         wilderness_offset slab_size object_size after]; auto.
  - cbn [chain]. split; [reflexivity|]. split.
    + unfold region_ok, slot in Ra. cbn [fst] in Ra. lia.
    + rewrite load_store_word by (eapply chain_head_word; eassumption).
      apply (chain_frame mm); [|exact Hc].
      intros a' x Ha' Hx. apply store_bytes_outside.
      pose proof (separate_cross osz lv fl _ a a' Hr Ha Ha') as D.
      unfold range_disjoint, slot, in_range in *. cbn [fst snd] in D.
      fold ptr_size. lia.
  - eapply separate_perm; [|exact Hr].
    apply Permutation_app_tail. apply Permutation_map. exact Pm.
  - etransitivity; eassumption.
Qed.

Lemma inv_write (c : config) (fl : list Z) (a i v : Z) :
  Inv osz ssz c fl ->
  In a (live c) ->
  0 <= i < osz ->
  Inv osz ssz
    (Build_config (with_mem (fun mm => upd mm (a + i) v) (mach c))
       (live c) (carved c))
    fl.
Proof.
  intros [Ho Hs Hl Hc Hoff Hr Hp] Ha Hi.
  destruct sizes as (C1 & C2 & C3 & C4).
  unfold regions, with_mem in *. explode c. subst osz' ssz' lk.
  constructor;
    cbn [mach live carved sa mem heap lock free_list wilderness_slab
         wilderness_offset slab_size object_size after]; auto.
  apply (chain_frame mm); [|exact Hc].
  intros a' x Ha' Hx. unfold upd.
  destruct (x =? a + i) eqn:E; [|reflexivity].
  apply Z.eqb_eq in E.
  pose proof (separate_cross osz lv fl _ a a' Hr Ha Ha') as D.
  unfold range_disjoint, slot, in_range in *. cbn [fst snd] in D. lia.
Qed.

Lemma inv_alloc_reuse (c : config) (fl : list Z) :
  Inv osz ssz c fl ->
  free_list (sa (mach c)) <> 0 ->
  exists fl',
    Inv osz ssz
      (Build_config
         (after (mach c)
            (load_bytes ptr_bytes (free_list (sa (mach c))) (mem (mach c)))
            (wilderness_slab (sa (mach c))) (wilderness_offset (sa (mach c)))
            (mem (mach c)) (heap (mach c)) [EvLoad (free_list (sa (mach c)))])
         (free_list (sa (mach c)) :: live c) (carved c))
      fl'.
Proof.
  intros [Ho Hs Hl Hc Hoff Hr Hp] Hf.
  unfold regions in *. explode c. subst osz' ssz' lk.
  destruct (chain_cons mm head fl Hf Hc) as (rest & -> & Hc').
  exists rest.
  constructor;
    cbn [mach live carved sa mem heap lock free_list wilderness_slab
         wilderness_offset slab_size object_size after]; auto.
  - eapply separate_perm; [|exact Hr].
    apply Permutation_app_tail. apply Permutation_map.
    symmetry. apply Permutation_middle.
  - rewrite Hp. symmetry. apply Permutation_middle.
Qed.

Lemma inv_alloc_carve (c : config) (fl : list Z) :
  Inv osz ssz c fl ->
  free_list (sa (mach c)) = 0 ->
  needs_block (sa (mach c)) = false ->
  wrap (wilderness_slab (sa (mach c)) + wilderness_offset (sa (mach c))) <> 0
  /\ Inv osz ssz
       (Build_config
          (after (mach c) 0 (wilderness_slab (sa (mach c)))
             (wrap (wilderness_offset (sa (mach c))
                    + object_size (sa (mach c))))
             (mem (mach c)) (heap (mach c)) [])
          (wrap (wilderness_slab (sa (mach c))
                 + wilderness_offset (sa (mach c))) :: live c)
          (wrap (wilderness_slab (sa (mach c))
                 + wilderness_offset (sa (mach c))) :: carved c))
       [].
Proof.
  intros [Ho Hs Hl Hc Hoff Hr Hp] Hf Hn.
  destruct sizes as (C1 & C2 & C3 & C4).
  unfold regions, needs_block in *. explode c. subst osz' ssz' lk head.
  apply chain_nil in Hc. subst fl.
  rewrite (wrap_small (off + osz)) in * by (unfold word_ok; lia).
  apply orb_false_iff in Hn. destruct Hn as (Hw & Hfit).
  apply Z.ltb_ge in Hfit.
  unfold uncarved in *.
  cbn [wilderness_slab wilderness_offset slab_size] in *.
  rewrite Hw in *. pose proof Hw as Hw'. apply Z.eqb_neq in Hw.
  assert (Rt : region_ok (ws + off, ssz - off)).
  { destruct Hr as (_ & Hr). rewrite !Forall_app in Hr.
    destruct Hr as (_ & Hr & _). exact (Forall_inv Hr). }
  unfold region_ok in Rt. cbn [fst snd] in Rt.
  rewrite (wrap_small (ws + off)) by (unfold word_ok; lia).
  split; [lia|].
  constructor;
    cbn [mach live carved sa mem heap lock free_list wilderness_slab
         wilderness_offset slab_size object_size after chain]; auto.
  - lia.
  - unfold regions, uncarved.
    cbn [mach live sa heap wilderness_slab wilderness_offset slab_size after].
    rewrite Hw'. cbn [map app].
    replace (ws + (off + osz)) with (ws + off + osz) by lia.
    replace (ssz - (off + osz)) with (ssz - off - osz) by lia.
    apply separate_cut; [lia|exact Hr].
  - rewrite !app_nil_r in *. constructor. exact Hp.
Qed.

Lemma inv_alloc_block_null (c : config) (fl : list Z) :
  Inv osz ssz c fl ->
  free_list (sa (mach c)) = 0 ->
  hd 0 (heap (mach c)) = 0 ->
  Inv osz ssz
    (Build_config
       (after (mach c) 0 (hd 0 (heap (mach c)))
          (wrap (0 + object_size (sa (mach c))))
          (mem (mach c)) (tl (heap (mach c)))
          [EvKmalloc (slab_size (sa (mach c))) (hd 0 (heap (mach c)))])
       (live c) (carved c))
    [].
Proof.
  intros [Ho Hs Hl Hc Hoff Hr Hp] Hf Hb.
  destruct sizes as (C1 & C2 & C3 & C4).
  unfold regions in *. explode c. subst osz' ssz' lk head.
  apply chain_nil in Hc. subst fl.
  rewrite (wrap_small (0 + osz)) by (unfold word_ok; lia).
  rewrite Hb.
  constructor;
    cbn [mach live carved sa mem heap lock free_list wilderness_slab
         wilderness_offset slab_size object_size after chain]; auto.
  - lia.
  - unfold regions, uncarved.
    cbn [mach live sa heap wilderness_slab wilderness_offset slab_size after].
    rewrite (blocks_null ssz h Hb). cbn [Z.eqb app].
    eapply separate_drop. exact Hr.
Qed.

Lemma inv_alloc_block (c : config) (fl : list Z) :
  Inv osz ssz c fl ->
  free_list (sa (mach c)) = 0 ->
  hd 0 (heap (mach c)) <> 0 ->
  wrap (hd 0 (heap (mach c)) + 0) <> 0
  /\ Inv osz ssz
       (Build_config
          (after (mach c) 0 (hd 0 (heap (mach c)))
             (wrap (0 + object_size (sa (mach c))))
             (mem (mach c)) (tl (heap (mach c)))
             [EvKmalloc (slab_size (sa (mach c))) (hd 0 (heap (mach c)))])
          (wrap (hd 0 (heap (mach c)) + 0) :: live c)
          (wrap (hd 0 (heap (mach c)) + 0) :: carved c))
       [].
Proof.
  intros [Ho Hs Hl Hc Hoff Hr Hp] Hf Hb.
  destruct sizes as (C1 & C2 & C3 & C4).
  unfold regions in *. explode c. subst osz' ssz' lk head.
  apply chain_nil in Hc. subst fl.
  rewrite (wrap_small (0 + osz)) by (unfold word_ok; lia).
  rewrite (blocks_cons ssz h Hb) in Hr.
  set (b := hd 0 h) in *.
  apply separate_drop in Hr.
  assert (Rb : region_ok (b, ssz)).
  { destruct Hr as (_ & Hr). rewrite Forall_app in Hr.
    destruct Hr as (_ & Hr). exact (Forall_inv Hr). }
  unfold region_ok in Rb. cbn [fst snd] in Rb.
  rewrite (wrap_small (b + 0)) by (unfold word_ok; lia).
  rewrite Z.add_0_r, Z.add_0_l.
  split; [exact Hb|].
  constructor;
    cbn [mach live carved sa mem heap lock free_list wilderness_slab
         wilderness_offset slab_size object_size after chain]; auto.
  - lia.
  - unfold regions, uncarved.
    cbn [mach live sa heap wilderness_slab wilderness_offset slab_size after].
    apply Z.eqb_neq in Hb. rewrite Hb. cbn [map app].
    apply separate_cut; [lia|exact Hr].
  - rewrite !app_nil_r in *. constructor. exact Hp.
Qed.

Lemma exec_op_inv (o : op) (c c' : config) (fl : list Z) :
  Inv osz ssz c fl ->
  exec_op o c = Some c' ->
  exists fl', Inv osz ssz c' fl'.
Proof.
  intros H E. destruct o as [|a|a i v]; cbn [exec_op] in E.
  - destruct (slab_alloc_paths (mach c) (inv_lock _ _ _ _ H))
      as [[Hf Ea]|[(Hf & Hn & Ea)|(Hf & Hn & Ea)]]; rewrite Ea in E.
    + apply Z.eqb_neq in Hf. rewrite Hf in E. apply Z.eqb_neq in Hf.
      inversion E. apply (inv_alloc_reuse c fl H Hf).
    + destruct (inv_alloc_carve c fl H Hf Hn) as (Ha & H').
      apply Z.eqb_neq in Ha. rewrite Ha, Hf in E. cbn [Z.eqb] in E.
      inversion E. eauto.
    + destruct (Z.eq_dec (hd 0 (heap (mach c))) 0) as [Hb|Hb].
      * rewrite Hb in E at 1. cbn [Z.add] in E. unfold wrap at 1 in E.
        rewrite Z.mod_0_l in E by (pose proof modulus_pos; lia).
        cbn [Z.eqb] in E. inversion E.
        exists []. apply (inv_alloc_block_null c fl H Hf Hb).
      * destruct (inv_alloc_block c fl H Hf Hb) as (Ha & H').
        apply Z.eqb_neq in Ha. rewrite Ha, Hf in E. cbn [Z.eqb] in E.
        inversion E. eauto.
  - destruct (mem_bool a (live c)) eqn:Ha; [|discriminate].
    apply mem_bool_In in Ha.
    rewrite (slab_free_closed a (mach c) (inv_lock _ _ _ _ H)) in E.
    inversion E. exists (a :: fl). apply inv_free; assumption.
  - destruct (mem_bool a (live c)) eqn:Ha; [|discriminate].
    apply mem_bool_In in Ha. cbn [andb] in E.
    destruct (0 <=? i) eqn:Hi1; [|discriminate]. cbn [andb] in E.
    destruct (i <? object_size (sa (mach c))) eqn:Hi2; [|discriminate].
    inversion E. exists fl. apply inv_write; [assumption..|].
    apply Z.leb_le in Hi1. apply Z.ltb_lt in Hi2.
    rewrite (inv_osz _ _ _ _ H) in Hi2. lia.
Qed.

Lemma run_inv (ops : list op) (c c' : config) (fl : list Z) :
  Inv osz ssz c fl ->
  run ops c = Some c' ->
  exists fl', Inv osz ssz c' fl'.
Proof.
  revert c fl. induction ops as [|o ops IH]; intros c fl H E; cbn [run] in E.
  - inversion E; subst; eauto.
  - destruct (exec_op o c) as [c1|] eqn:E1; [|discriminate].
    destruct (exec_op_inv o c c1 fl H E1) as (fl1 & H1). eauto.
Qed.

Lemma initial_inv (mm : memory) (ie : bool) (h : list Z) :
  provider_ok ssz h -> Inv osz ssz (initial osz ssz mm ie h) [].
Proof.
  intros Hp. destruct sizes as (C1 & C2 & C3 & C4).
  constructor; cbn; auto; lia.
Qed.

End Invariant.

Lemma pairwise_disjoint_NoDup (osz : Z) (l : list Z) :
  0 < osz -> pairwise_disjoint (map (slot osz) l) -> NoDup l.
Proof.
  intros Hs. induction l as [|a l IH]; cbn [map pairwise_disjoint].
  - constructor.
  - intros (H1 & H2). constructor; [|auto].
    intros Ha. rewrite Forall_map, Forall_forall in H1.
    specialize (H1 a Ha). unfold range_disjoint, slot in H1.
    cbn [fst snd] in H1. lia.
Qed.

(** C2 (as amended): from a fresh allocator whose objects can hold the link
    word (they are at least as large as a pointer), with a
    provider that hands out disjoint blocks, along every run of callers that
    allocate, free objects they own and write into objects they own: the
    free list is a chain of slots; the slots of the live objects, the slots
    on the free list, the uncarved part of the wilderness and the blocks
    still with the provider are pairwise disjoint regions of the address
    space; the slots ever carved are exactly the live and the freed ones;
    and the address a further [slab_alloc] returns is disjoint from every
    live object. *)
Theorem C2_no_overlap (osz ssz : Z) (mm : memory) (ie : bool) (h : list Z)
    (ops : list op) (c : config) :
  config_ok osz ssz ->
  provider_ok ssz h ->
  run ops (initial osz ssz mm ie h) = Some c ->
  exists fl,
    chain (mem (mach c)) (free_list (sa (mach c))) fl
    /\ separate (map (slot osz) (live c ++ fl)
                 ++ uncarved (sa (mach c))
                 ++ blocks ssz (heap (mach c)))
    /\ Permutation (carved c) (live c ++ fl)
    /\ NoDup (live c ++ fl)
    /\ pairwise_disjoint (map (slot osz) (live c))
    /\ exists a m',
         slab_alloc (mach c) = Some (a, m')
         /\ (a <> 0 -> Forall (range_disjoint (slot osz a))
                         (map (slot osz) (live c))).
Proof.
  intros Hc Hp E.
  destruct (run_inv osz ssz Hc ops _ c [] (initial_inv osz ssz Hc mm ie h Hp) E)
    as (fl & H).
  pose proof (inv_regions _ _ _ _ H) as Hr. unfold regions in Hr.
  assert (Hd : pairwise_disjoint (map (slot osz) (live c ++ fl))).
  { destruct Hr as (Hr & _). apply pairwise_disjoint_app in Hr. tauto. }
  exists fl. split; [apply H|]. split; [exact Hr|].
  split; [apply H|]. split.
  { apply (pairwise_disjoint_NoDup osz); [apply Hc|exact Hd]. }
  split.
  { rewrite map_app in Hd. apply pairwise_disjoint_app in Hd. tauto. }
  destruct (exec_op OpAlloc c) as [c'|] eqn:E'.
  - destruct (exec_op_inv osz ssz Hc OpAlloc c c' fl H E') as (fl' & H').
    cbn [exec_op] in E'.
    destruct (slab_alloc (mach c)) as [[a m']|]; [|discriminate].
    exists a, m'. split; [reflexivity|]. intros Ha.
    apply Z.eqb_neq in Ha. rewrite Ha in E'. inversion E'; subst c'.
    pose proof (inv_regions _ _ _ _ H') as Hr'. unfold regions in Hr'.
    cbn [live mach] in Hr'. destruct Hr' as (Hr' & _).
    apply pairwise_disjoint_app in Hr'. destruct Hr' as (Hr' & _).
    cbn [app map] in Hr'. rewrite map_app in Hr'.
    destruct Hr' as (Hr' & _). apply Forall_app in Hr'. tauto.
  - exfalso. cbn [exec_op] in E'.
    destruct (slab_alloc_paths (mach c) (inv_lock _ _ _ _ H))
      as [[_ Ea]|[(_ & _ & Ea)|(_ & _ & Ea)]]; rewrite Ea in E';
      match type of E' with
      | (if ?b then _ else _) = None => destruct b; discriminate
      end.
Qed.

(** ** Further properties of the two operations *)

Lemma exec_op_requests (o : op) (c c' : config) :
  exec_op o c = Some c' ->
  slab_size (sa (mach c')) = slab_size (sa (mach c))
  /\ exists k,
       (k <= if is_alloc o then 1 else 0)%nat
       /\ requests (trace (mach c'))
          = requests (trace (mach c)) ++ repeat (slab_size (sa (mach c))) k.
Proof.
  intros E. destruct o as [|a|a i v]; cbn [exec_op is_alloc] in *.
  - destruct (slab_alloc (mach c)) as [[a m']|] eqn:Ea; [|discriminate].
    pose proof (slab_alloc_lock _ _ Ea) as Hl.
    assert (slab_size (sa m') = slab_size (sa (mach c))
            /\ exists k, (k <= 1)%nat
                 /\ requests (trace m')
                    = requests (trace (mach c))
                      ++ repeat (slab_size (sa (mach c))) k) as (Hs & Hk).
    { destruct (slab_alloc_paths _ Hl) as [[_ E1]|[(_ & _ & E1)|(_ & _ & E1)]];
        rewrite E1 in Ea; inversion Ea; subst a m'; (split; [reflexivity|]);
        unfold after; cbn [trace]; rewrite !requests_app; cbn [requests
          entry_events exit_events app].
      - exists 0%nat. split; [lia|reflexivity].
      - exists 0%nat. split; [lia|reflexivity].
      - exists 1%nat. split; [lia|reflexivity]. }
    destruct (a =? 0); inversion E; subst c'; cbn [mach]; auto.
  - destruct (mem_bool a (live c)); [|discriminate].
    destruct (slab_free a (mach c)) as [[u m']|] eqn:Ea; [|discriminate].
    pose proof (slab_free_lock _ _ _ Ea) as Hl.
    rewrite (slab_free_closed a _ Hl) in Ea.
    inversion Ea; subst m'. inversion E; subst c'. cbn [mach].
    split; [reflexivity|]. exists 0%nat. split; [lia|].
    unfold after; cbn [trace]. rewrite !requests_app. reflexivity.
  - destruct (mem_bool a (live c) && (0 <=? i)
              && (i <? object_size (sa (mach c)))); [|discriminate].
    inversion E; subst c'. cbn [mach with_mem sa trace].
    split; [reflexivity|]. exists 0%nat. split; [lia|].
    cbn [repeat]. rewrite app_nil_r. reflexivity.
Qed.

(** X1: along every run of callers, [slab_size] stays as it was, every
    request made to the block provider is for [slab_size] bytes, and there
    are at most as many requests as there were allocations; frees and
    caller writes make none. *)
Theorem X1_requests_along_run (ops : list op) (c c' : config) :
  run ops c = Some c' ->
  slab_size (sa (mach c')) = slab_size (sa (mach c))
  /\ exists k,
       (k <= count_allocs ops)%nat
       /\ requests (trace (mach c'))
          = requests (trace (mach c)) ++ repeat (slab_size (sa (mach c))) k.
Proof.
  revert c. induction ops as [|o ops IH]; intros c E; cbn [run] in E.
  - inversion E; subst c'. split; [reflexivity|]. exists 0%nat.
    split; [cbn; lia|]. cbn [repeat]. rewrite app_nil_r. reflexivity.
  - destruct (exec_op o c) as [c1|] eqn:E1; [|discriminate].
    destruct (exec_op_requests o c c1 E1) as (S1 & k1 & L1 & R1).
    destruct (IH c1 E) as (S2 & k2 & L2 & R2).
    split; [congruence|]. exists (k1 + k2)%nat. split.
    + unfold count_allocs in *. cbn [filter].
      destruct (is_alloc o); cbn [length]; lia.
    + rewrite R2, R1, S1, <- app_assoc, repeat_app. reflexivity.
Qed.

Lemma alloc_n_app (n k : nat) (m : machine) :
  alloc_n (n + k) m =
  match alloc_n n m with
  | Some (l1, m1) =>
      match alloc_n k m1 with
      | Some (l2, m2) => Some (l1 ++ l2, m2)
      | None => None
      end
  | None => None
  end.
Proof.
  revert m. induction n as [|n IH]; intros m; cbn [Nat.add alloc_n].
  - unfold ret. destruct (alloc_n k m) as [[l2 m2]|]; reflexivity.
  - unfold bind at 1 3. destruct (slab_alloc m) as [[a m0]|]; [|reflexivity].
    unfold bind. rewrite IH.
    destruct (alloc_n n m0) as [[l1 m1]|]; [|reflexivity].
    unfold ret. destruct (alloc_n k m1) as [[l2 m2]|]; reflexivity.
Qed.

Lemma free_all_alloc_n (l : list Z) :
  forall m : machine,
    lock (sa m) = false ->
    word_ok (free_list (sa m)) ->
    Forall (fun a => a <> 0 /\ word_ok a) l ->
    pairwise_disjoint (map (slot ptr_size) l) ->
    exists m1 m2,
      free_all l m = Some (tt, m1)
      /\ alloc_n (length l) m1 = Some (rev l, m2)
      /\ lock (sa m2) = false
      /\ free_list (sa m2) = free_list (sa m)
      /\ wilderness_slab (sa m2) = wilderness_slab (sa m)
      /\ wilderness_offset (sa m2) = wilderness_offset (sa m)
      /\ requests (trace m2) = requests (trace m)
      /\ heap m2 = heap m
      /\ (forall x, (forall a, In a l -> ~ in_range a ptr_size x) ->
                    mem m2 x = mem m x).
Proof.
  induction l as [|a t IH]; intros m Hl Hw Hok Hd.
  - exists m, m. cbn. repeat split; auto.
  - cbn [free_all]. unfold bind at 1. rewrite (slab_free_closed a m Hl).
    set (m' := after m a (wilderness_slab (sa m)) (wilderness_offset (sa m))
                 (store_bytes ptr_bytes a (free_list (sa m)) (mem m))
                 (heap m) [EvStore a (free_list (sa m))]).
    pose proof (Forall_inv Hok) as (Ha0 & Haw).
    cbn [map pairwise_disjoint] in Hd. destruct Hd as (Hda & Hdt).
    destruct (IH m') as (m1 & m2 & E1 & E2 & L2 & F2 & W2 & O2 & R2 & H2 & M2);
      [reflexivity|exact Haw|exact (Forall_inv_tail Hok)|exact Hdt|].
    change (free_list (sa m')) with a in F2.
    assert (F2' : free_list (sa m2) <> 0) by (rewrite F2; exact Ha0).
    assert (Hload : load_bytes ptr_bytes a (mem m2) = free_list (sa m)).
    { rewrite (load_bytes_ext ptr_bytes a (mem m') (mem m2)).
      - apply load_store_word. exact Hw.
      - intros x Hx. apply M2. intros a' Ha' Hx'.
        rewrite Forall_map, Forall_forall in Hda. specialize (Hda a' Ha').
        unfold range_disjoint, slot, in_range in *. cbn [fst snd] in Hda.
        fold ptr_size in Hx. lia. }
    exists m1. eexists. split; [exact E1|].
    cbn [length rev]. rewrite <- Nat.add_1_r, alloc_n_app, E2.
    cbn [alloc_n]. unfold bind, ret.
    rewrite (slab_alloc_reuse m2 L2 F2'), F2, Hload.
    split; [reflexivity|].
    unfold after; cbn [sa mem heap trace lock free_list wilderness_slab
      wilderness_offset].
    repeat split; auto.
    + rewrite !requests_app, R2. unfold m', after; cbn [trace].
      rewrite !requests_app. cbn. rewrite ?app_nil_r. reflexivity.
    + intros x Hx. rewrite M2 by (intros a' Ha'; apply Hx; right; exact Ha').
      apply store_bytes_outside. apply (Hx a). left. reflexivity.
Qed.

(** X2: freeing the distinct objects [a1 ... an] (non-null, their link words
    not overlapping) and then allocating [n] times returns [an ... a1], the
    reverse order; the free list, the wilderness and the provider are then
    as before the frees, no request was made, and no byte outside the link
    words of the freed objects has changed. *)
Theorem X2_lifo_reuse (l : list Z) (m : machine) :
  lock (sa m) = false ->
  word_ok (free_list (sa m)) ->
  Forall (fun a => a <> 0 /\ word_ok a) l ->
  pairwise_disjoint (map (slot ptr_size) l) ->
  exists m1 m2,
    free_all l m = Some (tt, m1)
    /\ alloc_n (length l) m1 = Some (rev l, m2)
    /\ free_list (sa m2) = free_list (sa m)
    /\ wilderness_slab (sa m2) = wilderness_slab (sa m)
    /\ wilderness_offset (sa m2) = wilderness_offset (sa m)
    /\ requests (trace m2) = requests (trace m)
    /\ heap m2 = heap m
    /\ (forall x, (forall a, In a l -> ~ in_range a ptr_size x) ->
                  mem m2 x = mem m x).
Proof.
  intros Hl Hw Hok Hd.
  destruct (free_all_alloc_n l m Hl Hw Hok Hd)
    as (m1 & m2 & E1 & E2 & _ & R).
  exists m1, m2. auto.
Qed.

Lemma alloc_n_loop (A : Z) (n : nat) :
  forall m : machine,
    lock (sa m) = false ->
    free_list (sa m) = A ->
    A <> 0 ->
    load_bytes ptr_bytes A (mem m) = A ->
    exists m',
      alloc_n n m = Some (repeat A n, m')
      /\ lock (sa m') = false
      /\ free_list (sa m') = A
      /\ mem m' = mem m
      /\ wilderness_slab (sa m') = wilderness_slab (sa m)
      /\ wilderness_offset (sa m') = wilderness_offset (sa m)
      /\ requests (trace m') = requests (trace m)
      /\ heap m' = heap m.
Proof.
  induction n as [|n IH]; intros m Hl Hf HA Hload.
  - exists m. cbn. repeat split; auto.
  - cbn [alloc_n repeat]. unfold bind at 1.
    assert (Hf' : free_list (sa m) <> 0) by (rewrite Hf; exact HA).
    rewrite (slab_alloc_reuse m Hl Hf'), Hf, Hload.
    set (m1 := after m A (wilderness_slab (sa m)) (wilderness_offset (sa m))
                 (mem m) (heap m) [EvLoad A]).
    destruct (IH m1) as (m' & E & L & F & Mm & W & O & R & H);
      [reflexivity|reflexivity|exact HA|exact Hload|].
    exists m'. unfold bind, ret. rewrite E.
    repeat split; auto.
    rewrite R. unfold m1, after; cbn [trace]. rewrite !requests_app.
    cbn. rewrite ?app_nil_r. reflexivity.
Qed.

(** X3: freeing the same object twice in a row links it to itself: every
    later [slab_alloc] returns that object again, the free list never
    empties, and the block provider is never asked. *)
Theorem X3_double_free_loops (A : Z) (n : nat) (m : machine) :
  lock (sa m) = false ->
  A <> 0 ->
  word_ok A ->
  exists m1 m2,
    (slab_free A ;; slab_free A) m = Some (tt, m1)
    /\ load_bytes ptr_bytes A (mem m1) = A
    /\ alloc_n n m1 = Some (repeat A n, m2)
    /\ free_list (sa m2) = A
    /\ requests (trace m2) = requests (trace m)
    /\ heap m2 = heap m.
Proof.
  intros Hl HA Hw. unfold bind. rewrite (slab_free_closed A m Hl).
  set (m0 := after m A (wilderness_slab (sa m)) (wilderness_offset (sa m))
               (store_bytes ptr_bytes A (free_list (sa m)) (mem m)) (heap m)
               [EvStore A (free_list (sa m))]).
  assert (Hl0 : lock (sa m0) = false) by reflexivity.
  rewrite (slab_free_closed A m0 Hl0).
  change (free_list (sa m0)) with A.
  set (m1 := after m0 A (wilderness_slab (sa m0)) (wilderness_offset (sa m0))
               (store_bytes ptr_bytes A A (mem m0)) (heap m0) [EvStore A A]).
  assert (Hload : load_bytes ptr_bytes A (mem m1) = A)
    by (apply load_store_word; exact Hw).
  destruct (alloc_n_loop A n m1) as (m2 & E & _ & F & _ & _ & _ & R & H);
    [reflexivity|reflexivity|exact HA|exact Hload|].
  exists m1, m2. repeat split; auto.
  rewrite R. unfold m1, m0, after; cbn [trace]. rewrite !requests_app.
  cbn. rewrite ?app_nil_r. reflexivity.
Qed.

Lemma alloc_n_carve_state (b : Z) (n : nat) :
  forall (m : machine) (i : nat),
    lock (sa m) = false ->
    free_list (sa m) = 0 ->
    wilderness_slab (sa m) = b ->
    0 < b ->
    0 < object_size (sa m) ->
    b + slab_size (sa m) <= modulus ->
    wilderness_offset (sa m) = Z.of_nat i * object_size (sa m) ->
    (Z.of_nat i + Z.of_nat n) * object_size (sa m) <= slab_size (sa m) ->
    exists m',
      alloc_n n m = Some (steps b (object_size (sa m)) i n, m')
      /\ lock (sa m') = false
      /\ free_list (sa m') = 0
      /\ wilderness_slab (sa m') = b
      /\ wilderness_offset (sa m')
         = (Z.of_nat i + Z.of_nat n) * object_size (sa m)
      /\ slab_size (sa m') = slab_size (sa m)
      /\ object_size (sa m') = object_size (sa m)
      /\ requests (trace m') = requests (trace m)
      /\ heap m' = heap m.
Proof.
  induction n as [|n IH]; intros m i Hl Hf Hw Hb Hs Hk Ho Hn.
  - exists m. cbn [alloc_n steps seq map]. unfold ret.
    repeat split; auto. rewrite Ho. cbn. lia.
  - cbn [alloc_n]. unfold bind at 1.
    assert (Hoff : 0 <= wilderness_offset (sa m)) by nia.
    assert (Hfit : wilderness_offset (sa m) + object_size (sa m)
                   <= slab_size (sa m)) by nia.
    assert (Hnb : needs_block (sa m) = false).
    { unfold needs_block. rewrite wrap_small by (unfold word_ok; lia).
      apply orb_false_iff. split; [apply Z.eqb_neq; lia|apply Z.ltb_ge; lia]. }
    rewrite (slab_alloc_carve m Hl Hf Hnb).
    rewrite !wrap_small by (unfold word_ok; lia).
    set (m1 := after m 0 (wilderness_slab (sa m))
                 (wilderness_offset (sa m) + object_size (sa m))
                 (mem m) (heap m) []).
    destruct (IH m1 (S i)) as (m' & E & L & F & W & O & Ss & So & Er & Eh);
      try reflexivity; cbn [m1 after sa lock free_list wilderness_slab
        wilderness_offset slab_size object_size]; try assumption; try nia.
    exists m'. unfold bind. rewrite E. unfold ret.
    cbn [m1 after sa object_size slab_size trace heap] in *.
    repeat split; auto.
    + unfold steps. cbn [seq map]. rewrite Hw, Ho. reflexivity.
    + rewrite O. nia.
    + rewrite Er. rewrite !requests_app. cbn. rewrite ?app_nil_r. reflexivity.
Qed.

(** X4: a block of [ssz] bytes holds [q] objects of [osz] bytes, where
    [q * osz <= ssz < (q + 1) * osz]: from a fresh allocator the first [q]
    allocations are the objects of the first block in address order, and
    the next one requests a second block and returns its base, whatever
    is left at the end of the first block being given up. *)
Theorem X4_block_capacity (osz ssz b1 b2 : Z) (q : nat) (mm : memory)
    (ie : bool) (h : list Z) :
  0 < osz ->
  (1 <= q)%nat ->
  Z.of_nat q * osz <= ssz < (Z.of_nat q + 1) * osz ->
  ssz + osz < modulus ->
  0 < b1 ->
  b1 + ssz <= modulus ->
  word_ok b2 ->
  exists m',
    alloc_n (q + 1) (mach (initial osz ssz mm ie (b1 :: b2 :: h)))
    = Some (steps b1 osz 0 q ++ [b2], m')
    /\ requests (trace m') = [ssz; ssz]
    /\ heap m' = h
    /\ wilderness_slab (sa m') = b2
    /\ wilderness_offset (sa m') = osz.
Proof.
  intros Hs Hq Hcap Hm Hb1 Hb1' Hb2.
  destruct q as [|q]; [lia|].
  assert (Hle : osz <= ssz) by nia.
  set (m := mach (initial osz ssz mm ie (b1 :: b2 :: h))).
  assert (Hl : lock (sa m) = false) by reflexivity.
  assert (Hf : free_list (sa m) = 0) by reflexivity.
  assert (Hn : needs_block (sa m) = true) by reflexivity.
  rewrite alloc_n_app. cbn [alloc_n]. unfold bind at 1.
  rewrite (slab_alloc_block m Hl Hf Hn).
  change (heap m) with (b1 :: b2 :: h). change (mem m) with mm.
  change (object_size (sa m)) with osz. change (slab_size (sa m)) with ssz.
  cbn [hd tl].
  rewrite (wrap_small (b1 + 0)) by (unfold word_ok; lia).
  rewrite (wrap_small (0 + osz)) by (unfold word_ok; lia).
  set (m1 := after m 0 b1 (0 + osz) mm (b2 :: h) [EvKmalloc ssz b1]).
  destruct (alloc_n_carve_state b1 q m1 1)
    as (m2 & E & L2 & F2 & W2 & O2 & S2 & Z2 & R2 & H2);
    try reflexivity;
    try (change (object_size (sa m1)) with osz;
         change (slab_size (sa m1)) with ssz;
         change (wilderness_offset (sa m1)) with (0 + osz); lia).
  change (object_size (sa m1)) with osz in *.
  change (slab_size (sa m1)) with ssz in *.
  unfold bind at 1. rewrite E. unfold ret at 1. unfold bind at 1.
  assert (Hn2 : needs_block (sa m2) = true).
  { unfold needs_block. rewrite O2, Z2, S2.
    rewrite wrap_small by (unfold word_ok; nia).
    apply orb_true_iff. right. apply Z.ltb_lt. nia. }
  rewrite (slab_alloc_block m2 L2 F2 Hn2), H2, S2, Z2.
  change (heap m1) with (b2 :: h). cbn [hd tl]. unfold ret.
  rewrite (wrap_small (b2 + 0)) by (rewrite Z.add_0_r; exact Hb2).
  rewrite (wrap_small (0 + osz)) by (unfold word_ok; lia).
  eexists. split.
  - unfold steps. cbn [seq map app]. change (Z.of_nat 0) with 0.
    rewrite Z.mul_0_l, !Z.add_0_r. reflexivity.
  - unfold after; cbn [sa heap trace wilderness_slab wilderness_offset].
    repeat split; auto.
    rewrite !requests_app, R2. cbn. reflexivity.
Qed.

(** X5: a failed expansion leaves the allocator without a wilderness block,
    so the next [slab_alloc] asks the provider again, whatever the offset,
    and returns the base of the block it then gets. *)
Theorem X5_retry_after_failure (m : machine) :
  lock (sa m) = false ->
  free_list (sa m) = 0 ->
  needs_block (sa m) = true ->
  hd 0 (heap m) = 0 ->
  word_ok (hd 0 (tl (heap m))) ->
  word_ok (object_size (sa m)) ->
  exists m1 m2,
    slab_alloc m = Some (0, m1)
    /\ slab_alloc m1 = Some (hd 0 (tl (heap m)), m2)
    /\ wilderness_slab (sa m2) = hd 0 (tl (heap m))
    /\ wilderness_offset (sa m2) = object_size (sa m)
    /\ requests (trace m2)
       = requests (trace m) ++ [slab_size (sa m); slab_size (sa m)]
    /\ heap m2 = tl (tl (heap m)).
Proof.
  intros Hl Hf Hn Hh Hb Hs.
  rewrite (slab_alloc_block m Hl Hf Hn), Hh. cbn [Z.add].
  unfold wrap at 1. rewrite Z.mod_0_l by (pose proof modulus_pos; lia).
  set (m1 := after m 0 0 (wrap (object_size (sa m))) (mem m) (tl (heap m))
               [EvKmalloc (slab_size (sa m)) 0]).
  assert (Hl1 : lock (sa m1) = false) by reflexivity.
  assert (Hf1 : free_list (sa m1) = 0) by reflexivity.
  assert (Hn1 : needs_block (sa m1) = true) by reflexivity.
  exists m1. eexists. split; [reflexivity|].
  rewrite (slab_alloc_block m1 Hl1 Hf1 Hn1).
  change (heap m1) with (tl (heap m)).
  change (object_size (sa m1)) with (object_size (sa m)).
  change (slab_size (sa m1)) with (slab_size (sa m)).
  rewrite !wrap_small by (rewrite ?Z.add_0_r, ?Z.add_0_l; assumption).
  rewrite Z.add_0_r. split; [reflexivity|].
  unfold after; cbn [sa heap trace wilderness_slab wilderness_offset].
  repeat split; auto.
  unfold m1, after; cbn [trace]. rewrite !requests_app. cbn.
  rewrite <- app_assoc. reflexivity.
Qed.

Lemma alloc_n_oversize (n : nat) :
  forall m : machine,
    lock (sa m) = false ->
    free_list (sa m) = 0 ->
    slab_size (sa m) < object_size (sa m) ->
    object_size (sa m) + object_size (sa m) < modulus ->
    0 <= wilderness_offset (sa m) <= object_size (sa m) ->
    Forall word_ok (heap m) ->
    (n <= length (heap m))%nat ->
    exists m',
      alloc_n n m = Some (firstn n (heap m), m')
      /\ heap m' = skipn n (heap m)
      /\ requests (trace m')
         = requests (trace m) ++ repeat (slab_size (sa m)) n.
Proof.
  induction n as [|n IH]; intros m Hl Hf Hs Hm Ho Hh Hn.
  - exists m. cbn. rewrite app_nil_r. auto.
  - destruct (heap m) as [|b h] eqn:Eh; [cbn in Hn; lia|].
    cbn [alloc_n firstn skipn]. unfold bind at 1.
    assert (Hnb : needs_block (sa m) = true).
    { unfold needs_block. rewrite wrap_small by (unfold word_ok; lia).
      apply orb_true_iff. right. apply Z.ltb_lt. lia. }
    rewrite (slab_alloc_block m Hl Hf Hnb), Eh. cbn [hd tl].
    pose proof (Forall_inv Hh) as Hb.
    rewrite (wrap_small (b + 0)) by (rewrite Z.add_0_r; exact Hb).
    rewrite (wrap_small (0 + object_size (sa m))) by (unfold word_ok; lia).
    set (m1 := after m 0 b (0 + object_size (sa m)) (mem m) h
                 [EvKmalloc (slab_size (sa m)) b]).
    destruct (IH m1) as (m' & E & H' & R');
      try reflexivity;
      try (change (object_size (sa m1)) with (object_size (sa m));
           change (slab_size (sa m1)) with (slab_size (sa m));
           change (wilderness_offset (sa m1)) with (0 + object_size (sa m));
           lia).
    { exact (Forall_inv_tail Hh). }
    { change (heap m1) with h. cbn [length] in Hn. lia. }
    exists m'. unfold bind, ret. rewrite E.
    change (heap m1) with h in *.
    change (slab_size (sa m1)) with (slab_size (sa m)) in R'.
    rewrite Z.add_0_r. repeat split; auto.
    rewrite R'. unfold m1, after; cbn [trace]. rewrite !requests_app.
    cbn. rewrite <- app_assoc. reflexivity.
Qed.

(** X6: when [object_size] is larger than [slab_size] the test for room in
    the wilderness block never passes: with an empty free list every
    [slab_alloc] requests a block of [slab_size] bytes and returns its base,
    an object that does not fit the block it is in. *)
Theorem X6_oversize_objects (n : nat) (m : machine) :
  lock (sa m) = false ->
  free_list (sa m) = 0 ->
  slab_size (sa m) < object_size (sa m) ->
  object_size (sa m) + object_size (sa m) < modulus ->
  0 <= wilderness_offset (sa m) <= object_size (sa m) ->
  Forall word_ok (heap m) ->
  (n <= length (heap m))%nat ->
  exists m',
    alloc_n n m = Some (firstn n (heap m), m')
    /\ heap m' = skipn n (heap m)
    /\ requests (trace m')
       = requests (trace m) ++ repeat (slab_size (sa m)) n.
Proof. intros. apply alloc_n_oversize; assumption. Qed.

Lemma alloc_n_empty_objects (n : nat) :
  forall m : machine,
    lock (sa m) = false ->
    free_list (sa m) = 0 ->
    object_size (sa m) = 0 ->
    wilderness_slab (sa m) <> 0 ->
    0 <= wilderness_offset (sa m) <= slab_size (sa m) ->
    word_ok (wilderness_slab (sa m) + wilderness_offset (sa m)) ->
    word_ok (wilderness_offset (sa m)) ->
    exists m',
      alloc_n n m
      = Some (repeat (wilderness_slab (sa m) + wilderness_offset (sa m)) n, m')
      /\ wilderness_slab (sa m') = wilderness_slab (sa m)
      /\ wilderness_offset (sa m') = wilderness_offset (sa m)
      /\ requests (trace m') = requests (trace m)
      /\ heap m' = heap m.
Proof.
  induction n as [|n IH]; intros m Hl Hf Hs Hw Ho Ha Hoff.
  - exists m. cbn. auto.
  - cbn [alloc_n repeat]. unfold bind at 1.
    assert (Hnb : needs_block (sa m) = false).
    { unfold needs_block. rewrite Hs, Z.add_0_r, (wrap_small _ Hoff).
      apply orb_false_iff. split; [apply Z.eqb_neq; exact Hw|].
      apply Z.ltb_ge. lia. }
    rewrite (slab_alloc_carve m Hl Hf Hnb), Hs, Z.add_0_r.
    rewrite (wrap_small _ Ha), (wrap_small _ Hoff).
    set (m1 := after m 0 (wilderness_slab (sa m)) (wilderness_offset (sa m))
                 (mem m) (heap m) []).
    destruct (IH m1) as (m' & E & W' & O' & R' & H'); try assumption;
      try reflexivity.
    exists m'. unfold bind, ret. rewrite E.
    change (wilderness_slab (sa m1)) with (wilderness_slab (sa m)) in *.
    change (wilderness_offset (sa m1)) with (wilderness_offset (sa m)) in *.
    repeat split; auto.
    rewrite R'. unfold m1, after; cbn [trace]. rewrite !requests_app.
    cbn. rewrite ?app_nil_r. reflexivity.
Qed.

(** X7: with [object_size] 0 the wilderness offset never advances, so with
    an empty free list every [slab_alloc] returns one and the same address
    and no block is ever requested again. *)
Theorem X7_empty_objects_alias (n : nat) (m : machine) :
  lock (sa m) = false ->
  free_list (sa m) = 0 ->
  object_size (sa m) = 0 ->
  wilderness_slab (sa m) <> 0 ->
  0 <= wilderness_offset (sa m) <= slab_size (sa m) ->
  word_ok (wilderness_slab (sa m) + wilderness_offset (sa m)) ->
  word_ok (wilderness_offset (sa m)) ->
  exists m',
    alloc_n n m
    = Some (repeat (wilderness_slab (sa m) + wilderness_offset (sa m)) n, m')
    /\ wilderness_slab (sa m') = wilderness_slab (sa m)
    /\ wilderness_offset (sa m') = wilderness_offset (sa m)
    /\ requests (trace m') = requests (trace m)
    /\ heap m' = heap m.
Proof. intros. apply alloc_n_empty_objects; assumption. Qed.

Lemma store_bytes_ext (n : nat) (a v : Z) (m m' : memory) (x : Z) :
  (forall y, m y = m' y) -> store_bytes n a v m x = store_bytes n a v m' x.
Proof.
  revert a v m m'. induction n as [|n IH]; intros a v m m' H; cbn [store_bytes].
  - apply H.
  - apply IH. intros y. unfold upd. destruct (y =? a); [reflexivity|apply H].
Qed.

Lemma store_load_same (n : nat) (a : Z) (m : memory) (x : Z) :
  bytes_ok m -> store_bytes n a (load_bytes n a m) m x = m x.
Proof.
  intros Hb. revert a. induction n as [|n IH]; intros a;
    cbn [store_bytes load_bytes]; [reflexivity|].
  pose proof (Hb a) as Ha.
  replace ((m a + 256 * load_bytes n (a + 1) m) / 256)
    with (load_bytes n (a + 1) m)
    by (rewrite Z.mul_comm, Z.div_add, Z.div_small by lia; reflexivity).
  replace ((m a + 256 * load_bytes n (a + 1) m) mod 256) with (m a)
    by (rewrite Z.mul_comm, Z.mod_add, Z.mod_small by lia; reflexivity).
  rewrite (store_bytes_ext n (a + 1) _ (upd m a (m a)) m).
  - apply IH.
  - intros y. unfold upd. destruct (y =? a) eqn:E; [|reflexivity].
    apply Z.eqb_eq in E. subst. reflexivity.
Qed.

(** X8: taking the head of the free list with [slab_alloc] and giving it
    straight back with [slab_free] leaves the allocator structure, the
    memory, the provider and the interrupt state exactly as they were. *)
Theorem X8_alloc_free_round_trip (m : machine) :
  lock (sa m) = false ->
  free_list (sa m) <> 0 ->
  bytes_ok (mem m) ->
  exists m1 m2,
    slab_alloc m = Some (free_list (sa m), m1)
    /\ slab_free (free_list (sa m)) m1 = Some (tt, m2)
    /\ sa m2 = sa m
    /\ (forall x, mem m2 x = mem m x)
    /\ heap m2 = heap m
    /\ interrupts_enabled m2 = interrupts_enabled m
    /\ requests (trace m2) = requests (trace m).
Proof.
  intros Hl Hf Hb.
  rewrite (slab_alloc_reuse m Hl Hf).
  set (m1 := after m (load_bytes ptr_bytes (free_list (sa m)) (mem m))
               (wilderness_slab (sa m)) (wilderness_offset (sa m))
               (mem m) (heap m) [EvLoad (free_list (sa m))]).
  assert (Hl1 : lock (sa m1) = false) by reflexivity.
  exists m1. eexists. split; [reflexivity|].
  split; [apply slab_free_closed; exact Hl1|].
  unfold after at 1; cbn [sa mem heap interrupts_enabled trace].
  split; [|split; [|split; [|split]]].
  - destruct m as [[lk fl ws off ssz osz] mm ie h tr]. cbn in *. subst lk.
    reflexivity.
  - intros x. apply store_load_same. exact Hb.
  - reflexivity.
  - reflexivity.
  - unfold m1, after; cbn [trace]. rewrite !requests_app. cbn.
    rewrite ?app_nil_r. reflexivity.
Qed.

(** ** Properties of the states reached by runs of callers *)

Lemma pairwise_disjoint_in (l : list region) (r1 r2 : region) :
  pairwise_disjoint l -> In r1 l -> In r2 l ->
  r1 = r2 \/ range_disjoint r1 r2.
Proof.
  induction l as [|r l IH]; cbn [pairwise_disjoint In]; [tauto|].
  intros (Hr & Hl). rewrite Forall_forall in Hr.
  intros [<-|H1] [<-|H2]; auto.
  right. apply range_disjoint_sym. auto.
Qed.

Lemma remove_one_In_neq (a a' : Z) (l : list Z) :
  a <> a' -> In a l -> In a (remove_one a' l).
Proof.
  intros Hn. induction l as [|x l IH]; cbn [In remove_one]; [tauto|].
  intros [->|H].
  - apply Z.eqb_neq in Hn. rewrite Hn. left. reflexivity.
  - destruct (x =? a'); [exact H|right; auto].
Qed.

Lemma in_block_more (osz ssz : Z) (t t' : list event) (a : Z) :
  in_block osz ssz t a -> in_block osz ssz (t ++ t') a.
Proof.
  intros (b & i & Hb & H). exists b, i. split; [|exact H].
  apply in_or_app. left. exact Hb.
Qed.

Section Reachable.

Variables osz ssz : Z.
Hypothesis sizes : config_ok osz ssz.

(** The four ways an allocation goes in a state that satisfies the
    invariant, with the arithmetic of the code free of wrap-around. *)
Lemma exec_alloc_cases (c c' : config) (fl : list Z) :
  Inv osz ssz c fl ->
  exec_op OpAlloc c = Some c' ->
  (free_list (sa (mach c)) <> 0
   /\ c' = Build_config
             (after (mach c)
                (load_bytes ptr_bytes (free_list (sa (mach c))) (mem (mach c)))
                (wilderness_slab (sa (mach c)))
                (wilderness_offset (sa (mach c)))
                (mem (mach c)) (heap (mach c))
                [EvLoad (free_list (sa (mach c)))])
             (free_list (sa (mach c)) :: live c) (carved c))
  \/ (free_list (sa (mach c)) = 0
      /\ wilderness_slab (sa (mach c)) <> 0
      /\ wilderness_offset (sa (mach c)) + osz <= ssz
      /\ c' = Build_config
                (after (mach c) 0 (wilderness_slab (sa (mach c)))
                   (wilderness_offset (sa (mach c)) + osz)
                   (mem (mach c)) (heap (mach c)) [])
                (wilderness_slab (sa (mach c))
                 + wilderness_offset (sa (mach c)) :: live c)
                (wilderness_slab (sa (mach c))
                 + wilderness_offset (sa (mach c)) :: carved c))
  \/ (free_list (sa (mach c)) = 0
      /\ hd 0 (heap (mach c)) = 0
      /\ c' = Build_config
                (after (mach c) 0 0 osz (mem (mach c)) (tl (heap (mach c)))
                   [EvKmalloc ssz 0])
                (live c) (carved c))
  \/ (free_list (sa (mach c)) = 0
      /\ hd 0 (heap (mach c)) <> 0
      /\ c' = Build_config
                (after (mach c) 0 (hd 0 (heap (mach c))) osz (mem (mach c))
                   (tl (heap (mach c)))
                   [EvKmalloc ssz (hd 0 (heap (mach c)))])
                (hd 0 (heap (mach c)) :: live c)
                (hd 0 (heap (mach c)) :: carved c)).
Proof.
  intros H E. cbn [exec_op] in E.
  pose proof (inv_osz _ _ _ _ H) as Ho. pose proof (inv_ssz _ _ _ _ H) as Hs.
  pose proof (inv_off _ _ _ _ H) as Hoff.
  pose proof (inv_regions _ _ _ _ H) as Hr. unfold regions in Hr.
  destruct sizes as (C1 & C2 & C3 & C4).
  assert (W1 : wrap (0 + osz) = osz)
    by (rewrite Z.add_0_l; apply wrap_small; unfold word_ok; lia).
  destruct (slab_alloc_paths (mach c) (inv_lock _ _ _ _ H))
    as [[Hf Ea]|[(Hf & Hn & Ea)|(Hf & Hn & Ea)]]; rewrite Ea in E.
  - left. split; [exact Hf|]. apply Z.eqb_neq in Hf. rewrite Hf in E.
    inversion E. reflexivity.
  - right; left. unfold needs_block in Hn. rewrite Ho, Hs in Hn.
    rewrite Ho in E.
    rewrite (wrap_small (wilderness_offset (sa (mach c)) + osz)) in *
      by (unfold word_ok; lia).
    apply orb_false_iff in Hn. destruct Hn as (Hw & Hfit).
    apply Z.ltb_ge in Hfit.
    unfold uncarved in Hr. rewrite Hw, Hs in Hr. apply Z.eqb_neq in Hw.
    assert (Rt : region_ok (wilderness_slab (sa (mach c))
                            + wilderness_offset (sa (mach c)),
                            ssz - wilderness_offset (sa (mach c)))).
    { destruct Hr as (_ & Hr). rewrite !Forall_app in Hr.
      destruct Hr as (_ & Hr & _). exact (Forall_inv Hr). }
    unfold region_ok in Rt. cbn [fst snd] in Rt.
    rewrite wrap_small in E by (unfold word_ok; lia).
    assert (Hz : (wilderness_slab (sa (mach c))
                  + wilderness_offset (sa (mach c)) =? 0) = false)
      by (apply Z.eqb_neq; lia).
    rewrite Hz, Hf in E. cbn [Z.eqb] in E. inversion E. auto.
  - destruct (Z.eq_dec (hd 0 (heap (mach c))) 0) as [Hb|Hb].
    + right; right; left. rewrite Hb, Ho, Hs, W1 in E. cbn [Z.add] in E.
      unfold wrap in E. rewrite Z.mod_0_l in E by (pose proof modulus_pos; lia).
      cbn [Z.eqb] in E. inversion E. auto.
    + right; right; right. rewrite (blocks_cons ssz _ Hb) in Hr.
      apply separate_drop in Hr.
      assert (Rb : region_ok (hd 0 (heap (mach c)), ssz)).
      { destruct Hr as (_ & Hr). rewrite Forall_app in Hr.
        destruct Hr as (_ & Hr). exact (Forall_inv Hr). }
      unfold region_ok in Rb. cbn [fst snd] in Rb.
      rewrite Ho, Hs, W1 in E.
      rewrite wrap_small in E by (unfold word_ok; lia).
      rewrite Z.add_0_r in E. apply Z.eqb_neq in Hb. rewrite Hb, Hf in E.
      apply Z.eqb_neq in Hb. cbn [Z.eqb] in E. inversion E. auto.
Qed.

Lemma exec_op_blocks_inv (o : op) (c c' : config) (fl : list Z) :
  Inv osz ssz c fl ->
  blocks_inv osz ssz c ->
  exec_op o c = Some c' ->
  blocks_inv osz ssz c'.
Proof.
  intros H (Jc & Jw) E. destruct sizes as (C1 & C2 & C3 & C4).
  assert (Mono : forall t,
             Forall (in_block osz ssz (trace (mach c) ++ t)) (carved c)).
  { intros t. eapply Forall_impl; [|exact Jc].
    intros a. apply in_block_more. }
  destruct o as [|a|a i v].
  - destruct (exec_alloc_cases c c' fl H E)
      as [(Hf & ->)|[(Hf & Hw & Hfit & ->)|[(Hf & Hb & ->)|(Hf & Hb & ->)]]];
      unfold blocks_inv, wilderness_in_block, after;
      cbn [mach carved sa trace wilderness_slab wilderness_offset].
    + split; [apply Mono|].
      destruct Jw as [Jw|(Jw & j & Hj)]; [left; exact Jw|right].
      split; [apply in_or_app; left; exact Jw|eauto].
    + destruct Jw as [Jw|(Jw & j & Hj1 & Hj2)]; [contradiction|].
      pose proof (inv_off _ _ _ _ H) as Hoff.
      split.
      * constructor; [|apply Mono].
        exists (wilderness_slab (sa (mach c))), j.
        split; [apply in_or_app; left; exact Jw|].
        repeat split; auto; lia.
      * right. split; [apply in_or_app; left; exact Jw|].
        exists (j + 1). split; [lia|]. rewrite Hj2. lia.
    + split; [apply Mono|]. left. reflexivity.
    + assert (Hin : In (EvKmalloc ssz (hd 0 (heap (mach c))))
                      (trace (mach c) ++ entry_events (mach c)
                       ++ [EvKmalloc ssz (hd 0 (heap (mach c)))]
                       ++ exit_events (mach c))).
      { apply in_or_app. right. apply in_or_app. right. left. reflexivity. }
      split.
      * constructor; [|apply Mono].
        exists (hd 0 (heap (mach c))), 0.
        split; [exact Hin|]. repeat split; auto; lia.
      * right. split; [exact Hin|]. exists 1. split; lia.
  - cbn [exec_op] in E. destruct (mem_bool a (live c)); [|discriminate].
    rewrite (slab_free_closed a _ (inv_lock _ _ _ _ H)) in E.
    inversion E.
    unfold blocks_inv, wilderness_in_block, after;
      cbn [mach carved sa trace wilderness_slab wilderness_offset].
    split; [apply Mono|].
    destruct Jw as [Jw|(Jw & j & Hj)]; [left; exact Jw|right].
    split; [apply in_or_app; left; exact Jw|eauto].
  - cbn [exec_op] in E.
    destruct (mem_bool a (live c) && (0 <=? i)
              && (i <? object_size (sa (mach c)))); [|discriminate].
    inversion E. split; assumption.
Qed.

Lemma run_blocks_inv (ops : list op) (c c' : config) (fl : list Z) :
  Inv osz ssz c fl ->
  blocks_inv osz ssz c ->
  run ops c = Some c' ->
  blocks_inv osz ssz c'.
Proof.
  revert c fl. induction ops as [|o ops IH]; intros c fl H J E; cbn [run] in E.
  - inversion E; subst; exact J.
  - destruct (exec_op o c) as [c1|] eqn:E1; [|discriminate].
    destruct (exec_op_inv osz ssz sizes o c c1 fl H E1) as (fl1 & H1).
    apply (IH c1 fl1 H1); [|exact E].
    exact (exec_op_blocks_inv o c c1 fl H J E1).
Qed.

Lemma exec_op_stable (o : op) (c c' : config) (fl : list Z) (a : Z) :
  Inv osz ssz c fl ->
  In a (live c) ->
  touches a o = false ->
  exec_op o c = Some c' ->
  In a (live c')
  /\ forall x, in_range a osz x -> mem (mach c') x = mem (mach c) x.
Proof.
  intros H Ha Ht E. destruct sizes as (C1 & C2 & C3 & C4).
  pose proof (inv_regions _ _ _ _ H) as Hr. unfold regions in Hr.
  assert (Hd : forall a', In a' (live c) -> a' <> a ->
                 range_disjoint (slot osz a') (slot osz a)).
  { intros a' Ha' Hn. destruct Hr as (Hr & _).
    apply pairwise_disjoint_app in Hr. destruct Hr as (Hr & _).
    destruct (pairwise_disjoint_in _ (slot osz a') (slot osz a) Hr)
      as [Heq|Hdis]; auto.
    - apply in_map. apply in_or_app. left. exact Ha'.
    - apply in_map. apply in_or_app. left. exact Ha.
    - unfold slot in Heq. congruence. }
  destruct o as [|a2|a2 i v]; cbn [touches] in Ht.
  - destruct (exec_alloc_cases c c' fl H E)
      as [(_ & ->)|[(_ & _ & _ & ->)|[(_ & _ & ->)|(_ & _ & ->)]]];
      unfold after; cbn [mach live mem]; split; auto; right; exact Ha.
  - apply Z.eqb_neq in Ht. cbn [exec_op] in E.
    destruct (mem_bool a2 (live c)) eqn:Ha2; [|discriminate].
    apply mem_bool_In in Ha2.
    rewrite (slab_free_closed a2 _ (inv_lock _ _ _ _ H)) in E.
    inversion E. unfold after; cbn [mach live mem]. split.
    + apply remove_one_In_neq; [congruence|exact Ha].
    + intros x Hx. apply store_bytes_outside.
      pose proof (Hd a2 Ha2 Ht) as D.
      unfold range_disjoint, slot, in_range in *. cbn [fst snd] in D.
      fold ptr_size. lia.
  - apply Z.eqb_neq in Ht. cbn [exec_op] in E.
    destruct (mem_bool a2 (live c)) eqn:Ha2; [|discriminate].
    apply mem_bool_In in Ha2. cbn [andb] in E.
    destruct (0 <=? i) eqn:Hi1; [|discriminate]. cbn [andb] in E.
    destruct (i <? object_size (sa (mach c))) eqn:Hi2; [|discriminate].
    apply Z.leb_le in Hi1. apply Z.ltb_lt in Hi2.
    rewrite (inv_osz _ _ _ _ H) in Hi2.
    inversion E. cbn [mach live with_mem mem]. split; [exact Ha|].
    intros x Hx. unfold upd. destruct (x =? a2 + i) eqn:Ex; [|reflexivity].
    apply Z.eqb_eq in Ex. pose proof (Hd a2 Ha2 Ht) as D.
    unfold range_disjoint, slot, in_range in *. cbn [fst snd] in D. lia.
Qed.

Lemma run_stable (ops : list op) (c c' : config) (fl : list Z) (a : Z) :
  Inv osz ssz c fl ->
  In a (live c) ->
  existsb (touches a) ops = false ->
  run ops c = Some c' ->
  In a (live c')
  /\ forall x, in_range a osz x -> mem (mach c') x = mem (mach c) x.
Proof.
  revert c fl. induction ops as [|o ops IH]; intros c fl H Ha Ht E;
    cbn [run existsb] in *.
  - inversion E; subst. auto.
  - apply orb_false_iff in Ht. destruct Ht as (Ht1 & Ht2).
    destruct (exec_op o c) as [c1|] eqn:E1; [|discriminate].
    destruct (exec_op_inv osz ssz sizes o c c1 fl H E1) as (fl1 & H1).
    destruct (exec_op_stable o c c1 fl a H Ha Ht1 E1) as (Ha1 & M1).
    destruct (IH c1 fl1 H1 Ha1 Ht2 E) as (Ha' & M').
    split; [exact Ha'|]. intros x Hx. rewrite M' by exact Hx. auto.
Qed.

End Reachable.

(** X9: in every state reached from a fresh allocator, each live object
    lies wholly inside a block that the provider handed out for a request
    of [slab_size] bytes, at a whole number of [object_size] from the
    base of that block. *)
Theorem X9_objects_inside_blocks (osz ssz : Z) (mm : memory) (ie : bool)
    (h : list Z) (ops : list op) (c : config) :
  config_ok osz ssz ->
  provider_ok ssz h ->
  run ops (initial osz ssz mm ie h) = Some c ->
  Forall (in_block osz ssz (trace (mach c))) (live c).
Proof.
  intros Hc Hp E.
  pose proof (initial_inv osz ssz Hc mm ie h Hp) as H0.
  destruct (run_inv osz ssz Hc ops _ c [] H0 E) as (fl & H).
  assert (J : blocks_inv osz ssz c).
  { apply (run_blocks_inv osz ssz Hc ops _ c [] H0); [|exact E].
    split; [constructor|left; reflexivity]. }
  destruct J as (J & _).
  assert (J' : Forall (in_block osz ssz (trace (mach c))) (live c ++ fl)).
  { eapply Permutation_Forall; [|exact J]. apply H. }
  apply Forall_app in J'. tauto.
Qed.

(** X10: an object that is live in a reached state stays live, and every
    one of its bytes keeps its value, through any further allocations,
    frees of other objects and writes of callers into other objects. *)
Theorem X10_live_object_stable (osz ssz : Z) (mm : memory) (ie : bool)
    (h : list Z) (ops1 ops2 : list op) (c c' : config) (a : Z) :
  config_ok osz ssz ->
  provider_ok ssz h ->
  run ops1 (initial osz ssz mm ie h) = Some c ->
  In a (live c) ->
  existsb (touches a) ops2 = false ->
  run ops2 c = Some c' ->
  In a (live c')
  /\ forall x, in_range a osz x -> mem (mach c') x = mem (mach c) x.
Proof.
  intros Hc Hp E1 Ha Ht E2.
  destruct (run_inv osz ssz Hc ops1 _ c []
              (initial_inv osz ssz Hc mm ie h Hp) E1) as (fl & H).
  exact (run_stable osz ssz Hc ops2 c c' fl a H Ha Ht E2).
Qed.

(** X11: in every state reached from a fresh allocator [slab_alloc] returns,
    and it returns null exactly when the free list is empty, a new block is
    needed and the provider answers null; in every other case the caller
    gets an object. *)
Theorem X11_null_only_on_provider_failure (osz ssz : Z) (mm : memory)
    (ie : bool) (h : list Z) (ops : list op) (c : config) :
  config_ok osz ssz ->
  provider_ok ssz h ->
  run ops (initial osz ssz mm ie h) = Some c ->
  exists a m',
    slab_alloc (mach c) = Some (a, m')
    /\ (a = 0 <->
        free_list (sa (mach c)) = 0
        /\ needs_block (sa (mach c)) = true
        /\ hd 0 (heap (mach c)) = 0).
Proof.
  intros Hc Hp E.
  destruct (run_inv osz ssz Hc ops _ c []
              (initial_inv osz ssz Hc mm ie h Hp) E) as (fl & H).
  destruct (slab_alloc_paths (mach c) (inv_lock _ _ _ _ H))
    as [[Hf Ea]|[(Hf & Hn & Ea)|(Hf & Hn & Ea)]]; rewrite Ea;
    do 2 eexists; (split; [reflexivity|]).
  - split; [contradiction|]. intros (Hf' & _). contradiction.
  - destruct (inv_alloc_carve osz ssz Hc c fl H Hf Hn) as (Ha & _).
    split; [contradiction|]. intros (_ & Hn' & _). congruence.
  - destruct (Z.eq_dec (hd 0 (heap (mach c))) 0) as [Hb|Hb].
    + split; [auto|]. intros _. rewrite Hb. cbn [Z.add]. unfold wrap.
      apply Z.mod_0_l. pose proof (modulus_pos). lia.
    + destruct (inv_alloc_block osz ssz Hc c fl H Hf Hb) as (Ha & _).
      split; [contradiction|]. intros (_ & _ & Hb'). contradiction.
Qed.

End Slab.

(** ** Instances and counterexamples on 4-byte pointers *)

Ltac word_tac := unfold word_ok, modulus, ptr_size; cbn; lia.

Lemma C7_witness :
  lock (sa one_free) = false
  /\ word_ok 4 (free_list (sa one_free))
  /\ exists m',
       slab_free 4 4128 one_free = Some (tt, m')
       /\ load_bytes 4 4128 (mem m') = 4112
       /\ free_list (sa m') = 4128.
Proof.
  assert (H1 : lock (sa one_free) = false) by reflexivity.
  assert (H2 : word_ok 4 (free_list (sa one_free))) by word_tac.
  split; [exact H1|]. split; [exact H2|].
  destruct (C7_slab_free_pushes 4 4128 one_free H1 H2)
    as (m' & E & L & F & _).
  exists m'. auto.
Defined.

Lemma C8_witness :
  lock (sa one_free) = false
  /\ exists a m', slab_alloc 4 one_free = Some (a, m')
                  /\ interrupts_enabled m' = interrupts_enabled one_free.
Proof.
  assert (H1 : lock (sa one_free) = false) by reflexivity.
  split; [exact H1|].
  destruct (C8_interrupts_restored 4 one_free H1)
    as ((a & m' & body & E & _ & _ & I) & _).
  exists a, m'. auto.
Defined.

Lemma C3_witness :
  lock (sa one_free) = false
  /\ word_ok 4 (free_list (sa one_free))
  /\ 4128 <> 0
  /\ free_list (sa one_free) <> 0
  /\ (exists m1 m2,
        slab_free 4 4128 one_free = Some (tt, m1)
        /\ slab_alloc 4 m1 = Some (4128, m2)
        /\ free_list (sa m2) = 4112)
  /\ (exists m', slab_alloc 4 one_free = Some (4112, m')).
Proof.
  assert (H1 : lock (sa one_free) = false) by reflexivity.
  assert (H2 : word_ok 4 (free_list (sa one_free))) by word_tac.
  assert (H3 : 4128 <> 0) by lia.
  assert (H4 : free_list (sa one_free) <> 0) by (cbn; lia).
  repeat (split; [assumption|]).
  destruct (C3_free_then_alloc 4 4128 one_free H1 H2 H3)
    as ((m1 & m2 & E1 & E2 & F & _) & G).
  split.
  - exists m1, m2. auto.
  - destruct (G H4) as (m' & E & _). exists m'. exact E.
Defined.

Lemma C1_witness :
  lock (sa (full_block [])) = false
  /\ free_list (sa (full_block [])) = 0
  /\ needs_block 4 (sa (full_block [])) = true
  /\ hd 0 (heap (full_block [])) = 0
  /\ word_ok 4 (object_size (sa (full_block [])))
  /\ exists m',
       slab_alloc 4 (full_block []) = Some (0, m')
       /\ wilderness_slab (sa m') = 0
       /\ wilderness_offset (sa m') = 16.
Proof.
  assert (H1 : lock (sa (full_block [])) = false) by reflexivity.
  assert (H2 : free_list (sa (full_block [])) = 0) by reflexivity.
  assert (H3 : needs_block 4 (sa (full_block [])) = true) by reflexivity.
  assert (H4 : hd 0 (heap (full_block [])) = 0) by reflexivity.
  assert (H5 : word_ok 4 (object_size (sa (full_block [])))) by word_tac.
  repeat (split; [assumption|]).
  destruct (C1_provider_failure 4 (full_block []) H1 H2 H3 H4 H5)
    as (m' & E & _ & _ & _ & _ & _ & W & O).
  exists m'. auto.
Defined.

(** C1 as stated fails: after four allocations have used up the only block
    of the provider, the failed fifth [slab_alloc] returns null but
    overwrites both wilderness fields. *)
Lemma C1_counterexample :
  ~ (forall ops c a m',
        run 4 ops (initial 16 64 zero_mem true [4096]) = Some c ->
        free_list (sa (mach c)) = 0 ->
        needs_block 4 (sa (mach c)) = true ->
        hd 0 (heap (mach c)) = 0 ->
        slab_alloc 4 (mach c) = Some (a, m') ->
        a = 0
        /\ wilderness_slab (sa m') = wilderness_slab (sa (mach c))
        /\ wilderness_offset (sa m') = wilderness_offset (sa (mach c))
        /\ free_list (sa m') = free_list (sa (mach c))).
Proof.
  intros H.
  destruct (run 4 four_allocs (initial 16 64 zero_mem true [4096]))
    as [c|] eqn:Ec; [|vm_compute in Ec; discriminate].
  pose proof Ec as Ec'. vm_compute in Ec'. injection Ec' as Hc.
  destruct (slab_alloc 4 (mach c)) as [[a m']|] eqn:Ea;
    [|rewrite <- Hc in Ea; vm_compute in Ea; discriminate].
  pose proof Ea as Ea'. rewrite <- Hc in Ea'. vm_compute in Ea'.
  injection Ea' as Ha Hm.
  assert (P : a = 0
              /\ wilderness_slab (sa m') = wilderness_slab (sa (mach c))
              /\ wilderness_offset (sa m') = wilderness_offset (sa (mach c))
              /\ free_list (sa m') = free_list (sa (mach c))).
  { apply (H four_allocs c a m' Ec); [rewrite <- Hc; reflexivity..|exact Ea]. }
  destruct P as (_ & P & _). rewrite <- Hc, <- Hm in P. cbn in P. lia.
Qed.

Lemma C6_witness :
  lock (sa (full_block [8192])) = false
  /\ free_list (sa (full_block [8192])) = 0
  /\ wilderness_offset (sa (full_block [8192]))
     + object_size (sa (full_block [8192]))
     > slab_size (sa (full_block [8192]))
  /\ exists m',
       slab_alloc 4 (full_block [8192]) = Some (8192 + 0, m')
       /\ requests (trace m') = [64]
       /\ wilderness_slab (sa m') = 8192
       /\ wilderness_offset (sa m') = 0 + 16.
Proof.
  assert (H1 : lock (sa (full_block [8192])) = false) by reflexivity.
  assert (H2 : free_list (sa (full_block [8192])) = 0) by reflexivity.
  assert (H3 : word_ok 4 (hd 0 (heap (full_block [8192])))) by word_tac.
  assert (H4 : word_ok 4 (object_size (sa (full_block [8192])))) by word_tac.
  assert (H5 : word_ok 4 (wilderness_offset (sa (full_block [8192]))
                          + object_size (sa (full_block [8192]))))
    by word_tac.
  assert (H6 : wilderness_offset (sa (full_block [8192]))
               + object_size (sa (full_block [8192]))
               > slab_size (sa (full_block [8192]))) by (cbn; lia).
  repeat (split; [assumption|]).
  destruct (C6_new_block 4 (full_block [8192]) H1 H2 H3 H4 H5 (or_intror H6))
    as (m' & E & _ & R & _ & W & O).
  exists m'. auto.
Defined.

Lemma C9_witness :
  lock (sa one_free) = false
  /\ ptr_size 4 <= object_size (sa one_free)
  /\ (exists m',
        slab_free 4 4128 one_free = Some (tt, m')
        /\ wilderness_slab (sa m') = 4096
        /\ wilderness_offset (sa m') = 64
        /\ mem m' 4144 = mem one_free 4144)
  /\ (exists a m',
        slab_alloc 4 one_free = Some (a, m')
        /\ wilderness_slab (sa m') = 4096
        /\ wilderness_offset (sa m') = 64).
Proof.
  assert (H1 : lock (sa one_free) = false) by reflexivity.
  assert (H2 : ptr_size 4 <= object_size (sa one_free))
    by (unfold ptr_size; cbn; lia).
  assert (H3 : free_list (sa one_free) <> 0) by (cbn; lia).
  repeat (split; [assumption|]).
  destruct (C9_frame 4 4128 one_free H1)
    as ((m1 & E1 & W1 & O1 & _ & _ & _ & B1 & _)
        & (a & m2 & E2 & _ & _ & _ & F2)).
  split.
  - exists m1. repeat split; auto.
    apply (B1 H2). unfold in_range. cbn. lia.
  - exists a, m2. split; [exact E2|]. apply F2. exact H3.
Defined.

(** C9 as stated fails: with objects of 2 bytes, freeing the object at
    16382 clears the bytes of its live neighbour at 16384. *)
Lemma C9_counterexample :
  ~ (forall ops c c' a b x,
        run 4 ops (initial 2 4 full_mem true [16382]) = Some c ->
        exec_op 4 (OpFree a) c = Some c' ->
        In b (live c') ->
        in_range b 2 x ->
        mem (mach c') x = mem (mach c) x).
Proof.
  intros H.
  destruct (run 4 [OpAlloc; OpAlloc] (initial 2 4 full_mem true [16382]))
    as [c|] eqn:Ec; [|vm_compute in Ec; discriminate].
  pose proof Ec as Ec'. vm_compute in Ec'. injection Ec' as Hc.
  destruct (exec_op 4 (OpFree 16382) c) as [c'|] eqn:Ef;
    [|rewrite <- Hc in Ef; vm_compute in Ef; discriminate].
  pose proof Ef as Ef'. rewrite <- Hc in Ef'. vm_compute in Ef'.
  injection Ef' as Hc'.
  assert (P : mem (mach c') 16384 = mem (mach c) 16384).
  { apply (H [OpAlloc; OpAlloc] c c' 16382 16384 16384 Ec Ef).
    - rewrite <- Hc'. cbn. auto.
    - unfold in_range. lia. }
  rewrite <- Hc, <- Hc' in P. cbn in P. unfold full_mem in P. lia.
Qed.


Lemma C4_witness :
  0 < 16 /\ (1 <= 4)%nat /\ 0 < 4096
  /\ 4096 + Z.of_nat 4 * 16 <= modulus 4
  /\ exists m',
       alloc_n 4 4 (mach (initial 16 (Z.of_nat 4 * 16) zero_mem true
                            [4096; 8192]))
       = Some ([4096; 4112; 4128; 4144], m')
       /\ requests (trace m') = [64]
       /\ heap m' = [8192].
Proof.
  assert (H1 : 0 < 16) by lia.
  assert (H2 : (1 <= 4)%nat) by lia.
  assert (H3 : 0 < 4096) by lia.
  assert (H4 : 4096 + Z.of_nat 4 * 16 <= modulus 4)
    by (unfold modulus, ptr_size; cbn; lia).
  repeat (split; [assumption|]).
  destruct (C4_fill_first_block 4 16 4 4096 zero_mem true [8192] H1 H2 H3 H4)
    as (m' & E & R & Hh & _).
  exists m'. auto.
Defined.

Lemma C5_witness :
  0 <= 16 <= 64
  /\ 64 + 16 < modulus 4
  /\ exists c,
       run 4 scenario (initial 16 64 zero_mem true [4096; 8192]) = Some c
       /\ 0 <= wilderness_offset (sa (mach c)) <= slab_size (sa (mach c)).
Proof.
  assert (H1 : 0 <= 16 <= 64) by lia.
  assert (H2 : 64 + 16 < modulus 4) by (unfold modulus, ptr_size; cbn; lia).
  repeat (split; [assumption|]).
  destruct (run 4 scenario (initial 16 64 zero_mem true [4096; 8192]))
    as [c|] eqn:E; [|vm_compute in E; discriminate].
  exists c. split; [reflexivity|].
  exact (proj1 (C5_wilderness_offset 4 16 64 zero_mem true [4096; 8192]
                  scenario c H1 H2 E)).
Defined.

(** C5 as stated fails: the fifth allocation from 64-byte blocks of 16-byte
    objects takes a new block and brings the offset from 64 down to 16. *)
Lemma C5_counterexample :
  ~ (forall ops c a m',
        run 4 ops (initial 16 64 zero_mem true [4096; 8192]) = Some c ->
        slab_alloc 4 (mach c) = Some (a, m') ->
        wilderness_offset (sa (mach c)) <= wilderness_offset (sa m')).
Proof.
  intros H.
  destruct (run 4 four_allocs (initial 16 64 zero_mem true [4096; 8192]))
    as [c|] eqn:Ec; [|vm_compute in Ec; discriminate].
  pose proof Ec as Ec'. vm_compute in Ec'. injection Ec' as Hc.
  destruct (slab_alloc 4 (mach c)) as [[a m']|] eqn:Ea;
    [|rewrite <- Hc in Ea; vm_compute in Ea; discriminate].
  pose proof Ea as Ea'. rewrite <- Hc in Ea'. vm_compute in Ea'.
  injection Ea' as Ha Hm.
  pose proof (H four_allocs c a m' Ec Ea) as P.
  rewrite <- Hc, <- Hm in P. cbn in P. lia.
Qed.

(** C2 as stated fails: with objects of 2 bytes on 4-byte pointers, callers
    that keep to the contract get the object at 65536 a second time while
    it is still live: the link word of the freed 65534 covers it, and what
    its owner writes there becomes the next head of the free list. *)
Lemma C2_counterexample :
  0 < 2 <= 6
  /\ provider_ok 4 6 [65532]
  /\ ~ (forall ops c,
          run 4 ops (initial 2 6 zero_mem true [65532]) = Some c ->
          NoDup (live c)
          /\ pairwise_disjoint (map (slot 2) (live c))).
Proof.
  split; [lia|]. split.
  { unfold provider_ok, separate. cbn. split.
    - repeat split; repeat constructor.
    - repeat constructor; unfold modulus, ptr_size; cbn; lia. }
  intros H.
  destruct (run 4 small_object_ops (initial 2 6 zero_mem true [65532]))
    as [c|] eqn:Ec; [|vm_compute in Ec; discriminate].
  destruct (H small_object_ops c Ec) as (N & _).
  vm_compute in Ec. injection Ec as Hc. rewrite <- Hc in N. cbn in N.
  inversion N as [|a l Hin _]. apply Hin. cbn. auto.
Qed.

(** With objects of 2 bytes the link word of a freed object runs over its
    neighbour: freeing 16382 clears the two bytes of the object at 16384. *)
Example link_word_spills :
  exists m',
    slab_free 4 16382
      (Build_machine (Build_slab_allocator false 0 16382 4 4 2)
         (fun _ => 255) true [] [])
    = Some (tt, m')
    /\ mem m' 16384 = 0 /\ mem m' 16385 = 0 /\ mem m' 16386 = 255.
Proof. eexists. split; [reflexivity|]. cbn. auto. Qed.

Lemma C2_witness :
  config_ok 4 16 64
  /\ provider_ok 4 64 [4096; 8192]
  /\ exists c fl,
       run 4 scenario (initial 16 64 zero_mem true [4096; 8192]) = Some c
       /\ chain 4 (mem (mach c)) (free_list (sa (mach c))) fl
       /\ pairwise_disjoint (map (slot 16) (live c))
       /\ Permutation (carved c) (live c ++ fl).
Proof.
  assert (H1 : config_ok 4 16 64)
    by (unfold config_ok, modulus, ptr_size; cbn; lia).
  assert (H2 : provider_ok 4 64 [4096; 8192]).
  { unfold provider_ok, separate. cbn. split.
    - repeat split; repeat constructor; cbn; lia.
    - repeat constructor; unfold modulus, ptr_size; cbn; lia. }
  repeat (split; [assumption|]).
  destruct (run 4 scenario (initial 16 64 zero_mem true [4096; 8192]))
    as [c|] eqn:E; [|vm_compute in E; discriminate].
  destruct (C2_no_overlap 4 16 64 zero_mem true [4096; 8192] scenario c
              H1 H2 E) as (fl & C & _ & P & _ & D & _).
  exists c, fl. auto.
Defined.

(** ** Instances of the further properties on 4-byte pointers *)

Lemma X1_witness :
  exists c k,
    run 4 scenario (initial 16 64 zero_mem true [4096; 8192]) = Some c
    /\ (k <= count_allocs scenario)%nat
    /\ requests (trace (mach c)) = repeat 64 k.
Proof.
  destruct (run 4 scenario (initial 16 64 zero_mem true [4096; 8192]))
    as [c|] eqn:E; [|vm_compute in E; discriminate].
  destruct (X1_requests_along_run 4 scenario _ c E) as (_ & k & L & R).
  exists c, k. auto.
Defined.

Lemma X2_witness :
  lock (sa (full_block [])) = false
  /\ word_ok 4 (free_list (sa (full_block [])))
  /\ exists m1 m2,
       free_all 4 [4096; 4112; 4128] (full_block []) = Some (tt, m1)
       /\ alloc_n 4 3 m1 = Some ([4128; 4112; 4096], m2)
       /\ free_list (sa m2) = 0.
Proof.
  assert (H1 : lock (sa (full_block [])) = false) by reflexivity.
  assert (H2 : word_ok 4 (free_list (sa (full_block [])))) by word_tac.
  assert (H3 : Forall (fun a => a <> 0 /\ word_ok 4 a) [4096; 4112; 4128])
    by (repeat constructor; try lia; word_tac).
  assert (H4 : pairwise_disjoint
                 (map (slot (ptr_size 4)) [4096; 4112; 4128])).
  { unfold ptr_size. cbn. repeat split; repeat constructor; cbn; lia. }
  repeat (split; [assumption|]).
  destruct (X2_lifo_reuse 4 [4096; 4112; 4128] (full_block []) H1 H2 H3 H4)
    as (m1 & m2 & E1 & E2 & F & _).
  exists m1, m2. auto.
Defined.

Lemma X3_witness :
  lock (sa (full_block [])) = false
  /\ 4112 <> 0
  /\ word_ok 4 4112
  /\ exists m1 m2,
       (slab_free 4 4112 ;; slab_free 4 4112) (full_block []) = Some (tt, m1)
       /\ alloc_n 4 3 m1 = Some ([4112; 4112; 4112], m2)
       /\ free_list (sa m2) = 4112.
Proof.
  assert (H1 : lock (sa (full_block [])) = false) by reflexivity.
  assert (H2 : 4112 <> 0) by lia.
  assert (H3 : word_ok 4 4112) by word_tac.
  repeat (split; [assumption|]).
  destruct (X3_double_free_loops 4 4112 3 (full_block []) H1 H2 H3)
    as (m1 & m2 & E1 & _ & E2 & F & _).
  exists m1, m2. auto.
Defined.

Lemma X4_witness :
  0 < 16 /\ (1 <= 4)%nat
  /\ Z.of_nat 4 * 16 <= 70 < (Z.of_nat 4 + 1) * 16
  /\ 70 + 16 < modulus 4
  /\ 0 < 4096 /\ 4096 + 70 <= modulus 4 /\ word_ok 4 8192
  /\ exists m',
       alloc_n 4 (4 + 1)
         (mach (initial 16 70 zero_mem true [4096; 8192]))
       = Some ([4096; 4112; 4128; 4144; 8192], m')
       /\ requests (trace m') = [70; 70].
Proof.
  assert (H1 : 0 < 16) by lia.
  assert (H2 : (1 <= 4)%nat) by lia.
  assert (H3 : Z.of_nat 4 * 16 <= 70 < (Z.of_nat 4 + 1) * 16) by (cbn; lia).
  assert (H4 : 70 + 16 < modulus 4) by (unfold modulus, ptr_size; cbn; lia).
  assert (H5 : 0 < 4096) by lia.
  assert (H6 : 4096 + 70 <= modulus 4)
    by (unfold modulus, ptr_size; cbn; lia).
  assert (H7 : word_ok 4 8192) by word_tac.
  repeat (split; [assumption|]).
  destruct (X4_block_capacity 4 16 70 4096 8192 4 zero_mem true []
              H1 H2 H3 H4 H5 H6 H7) as (m' & E & R & _).
  exists m'. auto.
Defined.

Lemma X5_witness :
  lock (sa (full_block [0; 8192])) = false
  /\ free_list (sa (full_block [0; 8192])) = 0
  /\ needs_block 4 (sa (full_block [0; 8192])) = true
  /\ hd 0 (heap (full_block [0; 8192])) = 0
  /\ exists m1 m2,
       slab_alloc 4 (full_block [0; 8192]) = Some (0, m1)
       /\ slab_alloc 4 m1 = Some (8192, m2)
       /\ requests (trace m2) = [64; 64].
Proof.
  assert (H1 : lock (sa (full_block [0; 8192])) = false) by reflexivity.
  assert (H2 : free_list (sa (full_block [0; 8192])) = 0) by reflexivity.
  assert (H3 : needs_block 4 (sa (full_block [0; 8192])) = true)
    by reflexivity.
  assert (H4 : hd 0 (heap (full_block [0; 8192])) = 0) by reflexivity.
  assert (H5 : word_ok 4 (hd 0 (tl (heap (full_block [0; 8192])))))
    by word_tac.
  assert (H6 : word_ok 4 (object_size (sa (full_block [0; 8192]))))
    by word_tac.
  repeat (split; [assumption|]).
  destruct (X5_retry_after_failure 4 (full_block [0; 8192])
              H1 H2 H3 H4 H5 H6) as (m1 & m2 & E1 & E2 & _ & _ & R & _).
  exists m1, m2. auto.
Defined.

Lemma X6_witness :
  lock (sa oversize) = false
  /\ free_list (sa oversize) = 0
  /\ slab_size (sa oversize) < object_size (sa oversize)
  /\ exists m',
       alloc_n 4 2 oversize = Some ([4096; 8192], m')
       /\ requests (trace m') = [16; 16].
Proof.
  assert (H1 : lock (sa oversize) = false) by reflexivity.
  assert (H2 : free_list (sa oversize) = 0) by reflexivity.
  assert (H3 : slab_size (sa oversize) < object_size (sa oversize))
    by (cbn; lia).
  assert (H4 : object_size (sa oversize) + object_size (sa oversize)
               < modulus 4) by (unfold modulus, ptr_size; cbn; lia).
  assert (H5 : 0 <= wilderness_offset (sa oversize)
               <= object_size (sa oversize)) by (cbn; lia).
  assert (H6 : Forall (word_ok 4) (heap oversize))
    by (repeat constructor; word_tac).
  assert (H7 : (2 <= length (heap oversize))%nat) by (cbn; lia).
  repeat (split; [assumption|]).
  destruct (X6_oversize_objects 4 2 oversize H1 H2 H3 H4 H5 H6 H7)
    as (m' & E & _ & R).
  exists m'. auto.
Defined.

Lemma X7_witness :
  lock (sa empty_objects) = false
  /\ free_list (sa empty_objects) = 0
  /\ object_size (sa empty_objects) = 0
  /\ wilderness_slab (sa empty_objects) <> 0
  /\ exists m',
       alloc_n 4 3 empty_objects = Some ([4096; 4096; 4096], m')
       /\ requests (trace m') = [].
Proof.
  assert (H1 : lock (sa empty_objects) = false) by reflexivity.
  assert (H2 : free_list (sa empty_objects) = 0) by reflexivity.
  assert (H3 : object_size (sa empty_objects) = 0) by reflexivity.
  assert (H4 : wilderness_slab (sa empty_objects) <> 0) by (cbn; lia).
  assert (H5 : 0 <= wilderness_offset (sa empty_objects)
               <= slab_size (sa empty_objects)) by (cbn; lia).
  assert (H6 : word_ok 4 (wilderness_slab (sa empty_objects)
                          + wilderness_offset (sa empty_objects)))
    by word_tac.
  assert (H7 : word_ok 4 (wilderness_offset (sa empty_objects)))
    by word_tac.
  repeat (split; [assumption|]).
  destruct (X7_empty_objects_alias 4 3 empty_objects H1 H2 H3 H4 H5 H6 H7)
    as (m' & E & _ & _ & R & _).
  exists m'. auto.
Defined.

Lemma X8_witness :
  lock (sa one_free) = false
  /\ free_list (sa one_free) <> 0
  /\ bytes_ok (mem one_free)
  /\ exists m1 m2,
       slab_alloc 4 one_free = Some (4112, m1)
       /\ slab_free 4 4112 m1 = Some (tt, m2)
       /\ sa m2 = sa one_free.
Proof.
  assert (H1 : lock (sa one_free) = false) by reflexivity.
  assert (H2 : free_list (sa one_free) <> 0) by (cbn; lia).
  assert (H3 : bytes_ok (mem one_free))
    by (intros x; cbn; unfold zero_mem; lia).
  repeat (split; [assumption|]).
  destruct (X8_alloc_free_round_trip 4 one_free H1 H2 H3)
    as (m1 & m2 & E1 & E2 & S & _).
  exists m1, m2. auto.
Defined.

Lemma X9_witness :
  config_ok 4 16 64
  /\ provider_ok 4 64 [4096; 8192]
  /\ exists c,
       run 4 scenario (initial 16 64 zero_mem true [4096; 8192]) = Some c
       /\ Forall (in_block 16 64 (trace (mach c))) (live c).
Proof.
  assert (H1 : config_ok 4 16 64)
    by (unfold config_ok, modulus, ptr_size; cbn; lia).
  assert (H2 : provider_ok 4 64 [4096; 8192]).
  { unfold provider_ok, separate. cbn. split.
    - repeat split; repeat constructor; cbn; lia.
    - repeat constructor; unfold modulus, ptr_size; cbn; lia. }
  repeat (split; [assumption|]).
  destruct (run 4 scenario (initial 16 64 zero_mem true [4096; 8192]))
    as [c|] eqn:E; [|vm_compute in E; discriminate].
  exists c. split; [reflexivity|].
  exact (X9_objects_inside_blocks 4 16 64 zero_mem true [4096; 8192]
           scenario c H1 H2 E).
Defined.

Lemma X10_witness :
  config_ok 4 16 64
  /\ provider_ok 4 64 [4096; 8192]
  /\ existsb (touches 4096) other_ops = false
  /\ exists c c',
       run 4 four_allocs (initial 16 64 zero_mem true [4096; 8192]) = Some c
       /\ In 4096 (live c)
       /\ run 4 other_ops c = Some c'
       /\ In 4096 (live c')
       /\ mem (mach c') 4099 = mem (mach c) 4099.
Proof.
  assert (H1 : config_ok 4 16 64)
    by (unfold config_ok, modulus, ptr_size; cbn; lia).
  assert (H2 : provider_ok 4 64 [4096; 8192]).
  { unfold provider_ok, separate. cbn. split.
    - repeat split; repeat constructor; cbn; lia.
    - repeat constructor; unfold modulus, ptr_size; cbn; lia. }
  assert (H3 : existsb (touches 4096) other_ops = false) by reflexivity.
  repeat (split; [assumption|]).
  destruct (run 4 four_allocs (initial 16 64 zero_mem true [4096; 8192]))
    as [c|] eqn:E; [|vm_compute in E; discriminate].
  assert (Ha : In 4096 (live c)).
  { pose proof E as E'. vm_compute in E'. injection E' as <-.
    cbn. auto. }
  destruct (run 4 other_ops c) as [c'|] eqn:E2.
  - destruct (X10_live_object_stable 4 16 64 zero_mem true [4096; 8192]
                four_allocs other_ops c c' 4096 H1 H2 E Ha H3 E2)
      as (Ha' & M).
    exists c, c'. repeat split; auto.
    apply M. unfold in_range. lia.
  - exfalso. pose proof E as E'. vm_compute in E'. injection E' as Hc.
    rewrite <- Hc in E2. vm_compute in E2. discriminate.
Defined.

Lemma X11_witness :
  config_ok 4 16 64
  /\ provider_ok 4 64 [4096; 8192]
  /\ exists c a m',
       run 4 scenario (initial 16 64 zero_mem true [4096; 8192]) = Some c
       /\ slab_alloc 4 (mach c) = Some (a, m')
       /\ (a = 0 <->
           free_list (sa (mach c)) = 0
           /\ needs_block 4 (sa (mach c)) = true
           /\ hd 0 (heap (mach c)) = 0).
Proof.
  assert (H1 : config_ok 4 16 64)
    by (unfold config_ok, modulus, ptr_size; cbn; lia).
  assert (H2 : provider_ok 4 64 [4096; 8192]).
  { unfold provider_ok, separate. cbn. split.
    - repeat split; repeat constructor; cbn; lia.
    - repeat constructor; unfold modulus, ptr_size; cbn; lia. }
  repeat (split; [assumption|]).
  destruct (run 4 scenario (initial 16 64 zero_mem true [4096; 8192]))
    as [c|] eqn:E; [|vm_compute in E; discriminate].
  destruct (X11_null_only_on_provider_failure 4 16 64 zero_mem true
              [4096; 8192] scenario c H1 H2 E) as (a & m' & Ea & Hiff).
  exists c, a, m'. auto.
Defined.
